(** * Vectorised pairwise-interaction kernels (TipsAndTricks.ipynb)

    A shallow embedding of the notebook's array code.  The notebook is a
    sequence of cells over numpy arrays; every cell is one definition below,
    named after the variable the cell assigns.

    Numbers.  The cells are embedded twice.  In the modules [Gravity],
    [Kernel] and [Dot] numpy's float64 values are idealised as real numbers:
    rounding, underflow and overflow are not modelled, and what is proved
    there is about the structure of the cells (slices, broadcasting, masks,
    shapes, branches) and about formulas read over the arrays they compute.
    The true division by a norm that can be zero has its quotient in [fval],
    which adds the two infinities and not-a-number to the reals; the norm
    of a separation is exact there, so a norm that underflows to zero is
    outside that model.  Where a claim turns on the floating-point values
    themselves (a tolerance, a division that can meet zero, the exact zero
    of the diagonal of the gradient) the cells are embedded on binary64
    numbers, in the module [Binary64], with the IEEE 754 operations of
    [PrimFloat] and their specification in [FloatAxioms].

    Arrays.  A one-dimensional array is a list, an array of more dimensions is
    a list of its slices along the first axis.  numpy arrays are rectangular;
    the lists are not forced to be, and the theorems that need a shape say
    so.  Where numpy raises on shapes that do not broadcast, [bcast] pairs
    the elements up to the shorter length; no theorem relies on that case. *)

From Stdlib Require Import Reals Lra Lia List Bool Arith.
From Stdlib Require PrimFloat Floats.
Import ListNotations.
Local Open Scope R_scope.

(** ** numpy primitives *)

Module Np.

(** Elementwise pairing of two axes of equal length. *)
Definition map2 {A B C : Type} (f : A -> B -> C)
    (la : list A) (lb : list B) : list C :=
  map (fun p => f (fst p) (snd p)) (combine la lb).

(** One axis of numpy broadcasting: an axis of length 1 is stretched over the
    other operand's axis, otherwise the two axes are walked together. *)
Definition bcast {A B C : Type} (f : A -> B -> C)
    (la : list A) (lb : list B) : list C :=
  match la, lb with
  | [a], _ => map (f a) lb
  | _, [b] => map (fun a => f a b) la
  | _, _ => map2 f la lb
  end.

(** A binary ufunc on arrays of two and of three dimensions. *)
Definition bcast2 {A B C : Type} (f : A -> B -> C) :=
  bcast (bcast f).
Definition bcast3 {A B C : Type} (f : A -> B -> C) :=
  bcast (bcast (bcast f)).

(** [p - q] on one-dimensional arrays. *)
Definition sub1 (p q : list R) : list R := bcast Rminus p q.

(** An array of shape (n, m). *)
Definition shape2 {A : Type} (n m : nat) (a : list (list A)) : Prop :=
  length a = n /\ Forall (fun row => length row = m) a.

(** [a[:, np.newaxis]]: shape (N, ...) becomes (N, 1, ...). *)
Definition newaxis1 {A : Type} (a : list A) : list (list A) :=
  map (fun x => [x]) a.

(** [a[np.newaxis]]: shape (N, ...) becomes (1, N, ...). *)
Definition newaxis0 {A : Type} (a : list A) : list (list A) := [a].

(** [a[..., np.newaxis]] on a two-dimensional array. *)
Definition newaxis_last2 {A : Type} (a : list (list A))
    : list (list (list A)) :=
  map newaxis1 a.

(** [np.sum] of a one-dimensional array. *)
Definition sum (v : list R) : R := fold_right Rplus 0 v.

(** [np.linalg.norm] of a one-dimensional array: the 2-norm. *)
Definition norm (v : list R) : R := sqrt (sum (map (fun c => c * c) v)).

(** [np.linalg.norm(a, axis=2)] on a three-dimensional array. *)
Definition norm_axis2 (a : list (list (list R))) : list (list R) :=
  map (map norm) a.

(** [np.sum(a, axis=2)] on a three-dimensional array. *)
Definition sum_axis2 (a : list (list (list R))) : list (list R) :=
  map (map sum) a.

(** [np.hstack((a, b))] of two two-dimensional arrays. *)
Definition hstack {A : Type} (a b : list (list A)) : list (list A) :=
  map2 (@app A) a b.

(** [a[:, k:]]. *)
Definition cols_from {A : Type} (k : nat) (a : list (list A)) :=
  map (skipn k) a.

(** [a[:, :k] = v] and [a[:, k:] = v], as the updated array. *)
Definition set_cols_upto {A : Type} (k : nat) (a v : list (list A)) :=
  map2 (fun row w => w ++ skipn k row) a v.
Definition set_cols_from {A : Type} (k : nat) (a v : list (list A)) :=
  map2 (fun row w => firstn k row ++ w) a v.

(** Comparison ufuncs on real entries. *)
Definition Rleb (x y : R) : bool := if Rle_dec x y then true else false.
Definition Rltb (x y : R) : bool := if Rlt_dec x y then true else false.

(** Boolean-mask indexing [a[m]] of a two-dimensional array: the selected
    entries in row-major order. *)
Fixpoint compress_row {A : Type} (m : list bool) (a : list A) : list A :=
  match m, a with
  | b :: m', x :: a' =>
      if b then x :: compress_row m' a' else compress_row m' a'
  | _, _ => []
  end.

Fixpoint compress {A : Type} (m : list (list bool)) (a : list (list A))
    : list A :=
  match m, a with
  | mr :: m', ar :: a' => compress_row mr ar ++ compress m' a'
  | _, _ => []
  end.

(** Boolean-mask assignment [a[m] = vals]: the selected entries are
    overwritten, in row-major order, by the successive values; the result is
    the updated row together with the values not yet consumed. *)
Fixpoint scatter_row {A : Type} (m : list bool) (vals : list A)
    (a : list A) : list A * list A :=
  match m, a with
  | b :: m', x :: a' =>
      if b then
        match vals with
        | v :: vals' =>
            let (r, rest) := scatter_row m' vals' a' in (v :: r, rest)
        | [] =>
            let (r, rest) := scatter_row m' [] a' in (x :: r, rest)
        end
      else
        let (r, rest) := scatter_row m' vals a' in (x :: r, rest)
  | _, _ => (a, vals)
  end.

Fixpoint scatter {A : Type} (m : list (list bool)) (vals : list A)
    (a : list (list A)) : list (list A) :=
  match m, a with
  | mr :: m', ar :: a' =>
      let (r, rest) := scatter_row mr vals ar in r :: scatter m' rest a'
  | _, _ => a
  end.

(** [np.zeros_like] on arrays of two and of three dimensions. *)
Definition zeros_like2 {A : Type} (a : list (list A)) : list (list R) :=
  map (map (fun _ => 0)) a.
Definition zeros_like3 {A : Type} (a : list (list (list A)))
    : list (list (list R)) :=
  map (map (map (fun _ => 0))) a.

(** [m.sum(axis=0)] of a two-dimensional boolean array: the number of [True]
    entries of every column. *)
Definition b2n (b : bool) : nat := if b then 1%nat else 0%nat.

Definition count_step (row : list bool) (acc : list nat) : list nat :=
  map2 Nat.add (map b2n row) acc.

Definition count_axis0 (m : list (list bool)) : list nat :=
  fold_right count_step (repeat 0%nat (length (hd [] m))) m.

(** Python's builtin [sum] over a one-dimensional boolean array. *)
Definition count_true (row : list bool) : nat :=
  fold_left (fun acc b => (acc + b2n b)%nat) row 0%nat.

End Np.

(** ** Floating-point values outside the reals *)

Module Float.

Inductive fval : Type :=
  | Fin (x : R)
  | PInf
  | NInf
  | NaN.

(** [x / y] of two finite values, [y] not negative zero: a non-zero divisor
    gives the real quotient, [0 / 0] is not-a-number and a non-zero value
    over zero is the infinity of its sign. *)
Definition fdiv (x y : R) : fval :=
  if Req_dec_T y 0 then
    if Req_dec_T x 0 then NaN
    else if Rlt_dec 0 x then PInf else NInf
  else Fin (x / y).

Definition fadd (a b : fval) : fval :=
  match a, b with
  | NaN, _ | _, NaN => NaN
  | PInf, NInf | NInf, PInf => NaN
  | PInf, _ | _, PInf => PInf
  | NInf, _ | _, NInf => NInf
  | Fin x, Fin y => Fin (x + y)
  end.

Definition fneg (a : fval) : fval :=
  match a with
  | Fin x => Fin (- x)
  | PInf => NInf
  | NInf => PInf
  | NaN => NaN
  end.

(** What [np.nansum] does to an entry before adding it up. *)
Definition nan_to_zero (a : fval) : fval :=
  match a with
  | NaN => Fin 0
  | _ => a
  end.

(** [np.nansum(a, axis=1)] on a three-dimensional array: along the second
    axis, not-a-number entries count as zero. *)
Definition nansum_axis1 (a : list (list (list fval))) : list (list fval) :=
  map (fun row =>
         fold_right (fun v acc => Np.map2 fadd (map nan_to_zero v) acc)
                    (repeat (Fin 0) (length (hd [] row))) row) a.

End Float.

(** ** Force derivative (first part of the notebook) *)

Module Gravity.
Import Np Float.

Section Cells.

(** [constants.G.value], the masses and the random draws of the second cell.
    The notebook later rebinds [pos] and [mass]; the first bindings are
    [pos0] and [mass0] here. *)
Variable G : R.
Variable mass0 : list R.
Variables pos0 vel : list (list R).

(** [S = np.hstack((pos, vel))]: the columns are x, y, z, vx, vy, vz. *)
Definition S : list (list R) := hstack pos0 vel.

(** [dS = np.zeros_like(S)] and [dS[:, :3] = S[:, 3:]]. *)
Definition dS_zeros : list (list fval) := map (map (fun _ => Fin 0)) S.
Definition dS_first : list (list fval) :=
  set_cols_upto 3 dS_zeros (map (map Fin) (cols_from 3 S)).

(** [pos = S[:, 3:]]. *)
Definition pos : list (list R) := cols_from 3 S.

(** [xi = pos[:, np.newaxis]], [xj = pos[np.newaxis]], [dxij = xi - xj]. *)
Definition xi : list (list (list R)) := newaxis1 pos.
Definition xj : list (list (list R)) := newaxis0 pos.
Definition dxij : list (list (list R)) := bcast3 Rminus xi xj.

(** [mass = mass[np.newaxis, :, np.newaxis]]. *)
Definition mass : list (list (list R)) := newaxis0 (newaxis1 mass0).

(** [acc_matrix = G * mass * dxij / np.linalg.norm(dxij, axis=2)[..., np.newaxis]]. *)
Definition acc_matrix : list (list (list fval)) :=
  bcast3 fdiv
    (bcast3 Rmult (map (map (map (Rmult G))) mass) dxij)
    (newaxis_last2 (norm_axis2 dxij)).

(** [dS[:, 3:] = -np.nansum(acc_matrix, axis=1)]. *)
Definition acc : list (list fval) :=
  map (map fneg) (nansum_axis1 acc_matrix).
Definition dS : list (list fval) := set_cols_from 3 dS_first acc.

End Cells.

(** Entrywise reading of [acc_matrix]: the entry of the pair whose rows of
    [pos] are [p] and [q] and whose second particle has mass [m].  The lemma
    [acc_matrix_unfold] below proves that the cell computes exactly this. *)
Definition acc_entry (G m : R) (p q : list R) : list fval :=
  map (fun c => fdiv (G * m * c) (norm (sub1 p q))) (sub1 p q).

(** The real contribution of such a pair to the sum that [np.nansum] forms:
    nothing at distance zero, the finite quotient otherwise.  The lemma
    [nan_to_zero_entry] below proves that this is what is added up. *)
Definition acc_term (G m : R) (p q : list R) : list R :=
  map (fun c => if Req_dec_T (norm (sub1 p q)) 0 then 0
                else G * m * c / norm (sub1 p q))
      (sub1 p q).

(** A row of [acc_matrix] from which the pairs of particle [i] with the
    particles at its own place are left out: the entry of every particle
    whose row of [pos] is [p] is replaced by zeros.  It serves to state what
    [np.nansum] discards. *)
Definition without_coincident (p : list R) (pos : list (list R))
    (row : list (list fval)) : list (list fval) :=
  map2 (fun q e => if list_eq_dec Req_dec_T p q
                   then map (fun _ => Fin 0) e else e)
       pos row.

(** The accumulation as the specification words it, on the positions of the
    particles: minus the sum over [j <> i] of
    [G * mass[j] * (x_i - x_j) / ||x_i - x_j||^3]. *)
Definition spec_term (G : R) (m : R) (p q : list R) : list R :=
  map (fun c => G * m * c / norm (map2 Rminus p q) ^ 3) (map2 Rminus p q).

Definition spec_result (G : R) (masses : list R) (position : list (list R))
    (i : nat) : list R :=
  map Ropp
    (fold_right
       (fun j s =>
          if Nat.eqb j i then s
          else map2 Rplus
                 (spec_term G (nth j masses 0) (nth i position [])
                            (nth j position [])) s)
       [0; 0; 0] (seq 0 (length position))).

End Gravity.

(** ** Kernel and nearest-neighbour masks (second part) *)

Module Kernel.
Import Np.

(** The two polynomial branches of [W], as the assignments write them. *)
Definition W_branch1 (alpha r : R) : R :=
  alpha * (2 / 3 - r ^ 2 + 1 / 2 * r ^ 3).
Definition W_branch2 (alpha r : R) : R :=
  alpha * (1 / 6 * (2 - r) ^ 3).

(** The two mask conditions on one entry of [R]. *)
Definition in_I1 (r : R) : bool := Rleb 0 r && Rltb r 1.
Definition in_I2 (r : R) : bool := Rleb 1 r && Rltb r 2.

Section Cells.

Variables h alpha : R.
Variable pos : list (list R).

(** [dxij = pos[:, np.newaxis] - pos[np.newaxis]]. *)
Definition dxij : list (list (list R)) :=
  bcast3 Rminus (newaxis1 pos) (newaxis0 pos).

(** [rij = np.linalg.norm(dxij, axis=2)] and
    [R = np.linalg.norm(dxij, axis=2) / h]; the array [R] of the notebook is
    [Rij] here, [R] being the type of the reals. *)
Definition rij : list (list R) := norm_axis2 dxij.
Definition Rij : list (list R) := map (map (fun r => r / h)) (norm_axis2 dxij).

(** [I1 = (R >= 0) & (R < 1)] and [I2 = (R >= 1) & (R < 2)]. *)
Definition I1 : list (list bool) := map (map in_I1) Rij.
Definition I2 : list (list bool) := map (map in_I2) Rij.

(** [W = np.zeros_like(rij)], [dW = np.zeros_like(dxij)]. *)
Definition W_zeros : list (list R) := zeros_like2 rij.
Definition dW_zeros : list (list (list R)) := zeros_like3 dxij.

(** [W[I1] = alpha * (2 / 3 - R[I1] ** 2 + 1 / 2 * R[I1] ** 3)], then
    [W[I2] = alpha * (1 / 6 * (2 - R[I2]) ** 3)]. *)
Definition W_first : list (list R) :=
  scatter I1 (map (W_branch1 alpha) (compress I1 Rij)) W_zeros.
Definition W : list (list R) :=
  scatter I2 (map (W_branch2 alpha) (compress I2 Rij)) W_first.

(** [dW[I1] = alpha * (-2 + 3 / 2 * R[I1][:, np.newaxis]) * dxij[I1, :] / h**2]. *)
Definition dW_first : list (list (list R)) :=
  scatter I1
    (map (map (fun x => x / h ^ 2))
       (bcast2 Rmult
          (map (map (fun r => alpha * (-2 + 3 / 2 * r)))
               (newaxis1 (compress I1 Rij)))
          (compress I1 dxij)))
    dW_zeros.

(** The divisor [h * rij[I2][:, np.newaxis]] of the second assignment. *)
Definition dW_divisor : list (list R) :=
  map (map (Rmult h)) (newaxis1 (compress I2 rij)).

(** [dW[I2] = alpha * (-1 / 2 * (2 - R[I2][:, np.newaxis]) ** 2)
               * dxij[I2, :] / (h * rij[I2][:, np.newaxis])]. *)
Definition dW : list (list (list R)) :=
  scatter I2
    (bcast2 Rdiv
       (bcast2 Rmult
          (map (map (fun r => alpha * (-1 / 2 * (2 - r) ^ 2)))
               (newaxis1 (compress I2 Rij)))
          (compress I2 dxij))
       dW_divisor)
    dW_first.

(** [sum(I1[0])] and [I1.sum(axis=0)], the notebook's neighbour counts. *)
Definition neighbours_of_first : nat := count_true (nth 0%nat I1 []).
Definition neighbours : list nat := count_axis0 I1.

End Cells.

(** Entrywise reading of the cells: what the masks and the two pairs of masked
    assignments leave at the entry whose separation vector is [v].  The
    lemmas [W_unfold] and [dW_unfold] below prove that the cells compute
    exactly this. *)
Definition R_entry (h : R) (v : list R) : R := norm v / h.

Definition W_entry (h alpha : R) (v : list R) : R :=
  if in_I2 (R_entry h v) then W_branch2 alpha (R_entry h v)
  else if in_I1 (R_entry h v) then W_branch1 alpha (R_entry h v)
  else 0.

Definition dW_entry (h alpha : R) (v : list R) : list R :=
  if in_I2 (R_entry h v) then
    map (fun x => x / (h * norm v))
        (map (Rmult (alpha * (-1 / 2 * (2 - R_entry h v) ^ 2))) v)
  else if in_I1 (R_entry h v) then
    map (fun x => x / h ^ 2)
        (map (Rmult (alpha * (-2 + 3 / 2 * R_entry h v))) v)
  else map (fun _ => 0) v.

(** The neighbour count as the specification words it: the particles
    [j <> i] with [0 <= R[i,j] < 2]. *)
Definition spec_neighbours (h : R) (position : list (list R)) (i : nat) : nat :=
  length
    (filter
       (fun j =>
          negb (Nat.eqb j i)
          && (Rleb 0 (norm (map2 Rminus (nth i position [])
                                        (nth j position [])) / h)
              && Rltb (norm (map2 Rminus (nth i position [])
                                         (nth j position [])) / h) 2))
       (seq 0 (length position))).

End Kernel.

(** ** The kernel on binary64 numbers

    The cells whose claims turn on rounding, underflow or not-a-number are
    embedded a second time on binary64 floating-point numbers, with the
    operations in the order Python and numpy evaluate them. *)
Module Binary64.
Import PrimFloat.
Local Open Scope float_scope.

(** The two branches of [W].  The integer powers are written as repeated
    products, which is exact at the arguments used below, where every power
    is one of 0 or of 1. *)
Definition W_branch1 (alpha r : float) : float :=
  alpha * (2 / 3 - r * r + 1 / 2 * (r * r * r)).
Definition W_branch2 (alpha r : float) : float :=
  alpha * (1 / 6 * ((2 - r) * (2 - r) * (2 - r))).

(** The tolerance 1e-12 of the continuity of [W]: the quotient below is the
    binary64 number nearest to 1e-12, the value of Python's literal. *)
Definition tolerance : float := 1 / 1000000000000.

(** [np.add.reduce] along an axis of fewer than eight entries: the entries
    are added one after the other, from the left, to 0; for the squares
    summed below the start from 0 changes nothing. *)
Definition sum (v : list float) : float := fold_left add v 0.

(** [np.linalg.norm(x, axis=2)], which numpy computes as
    [sqrt(add.reduce(x * x, axis=2))]. *)
Definition norm (v : list float) : float :=
  sqrt (sum (map (fun c => c * c) v)).

(** The two mask conditions on one entry of [R]; a comparison with
    not-a-number is false. *)
Definition in_I1 (r : float) : bool := (0 <=? r) && (r <? 1).
Definition in_I2 (r : float) : bool := (1 <=? r) && (r <? 2).

(** [h**2].  numpy squares by one product; on a Python float the power is
    that of the C library, which is taken to return the correctly rounded
    square as well.  The overflow of [h**2], which Python reports, is kept
    out by the hypotheses of the theorems. *)
Definition hsq (h : float) : float := h * h.

Section Cells.

Variables h alpha : float.
Variable pos : list (list float).

(** [dxij = pos[:, np.newaxis] - pos[np.newaxis]]. *)
Definition dxij : list (list (list float)) :=
  Np.bcast3 sub (Np.newaxis1 pos) (Np.newaxis0 pos).

(** [rij = np.linalg.norm(dxij, axis=2)] and
    [R = np.linalg.norm(dxij, axis=2) / h]. *)
Definition rij : list (list float) := map (map norm) dxij.
Definition Rij : list (list float) :=
  map (map (fun r => r / h)) (map (map norm) dxij).

(** [I1 = (R >= 0) & (R < 1)] and [I2 = (R >= 1) & (R < 2)]. *)
Definition I1 : list (list bool) := map (map in_I1) Rij.
Definition I2 : list (list bool) := map (map in_I2) Rij.

(** [dW = np.zeros_like(dxij)]. *)
Definition dW_zeros : list (list (list float)) :=
  map (map (map (fun _ => 0))) dxij.

(** [dW[I1] = alpha * (-2 + 3 / 2 * R[I1][:, np.newaxis]) * dxij[I1, :] / h**2]. *)
Definition dW_first : list (list (list float)) :=
  Np.scatter I1
    (map (map (fun x => x / hsq h))
       (Np.bcast2 mul
          (map (map (fun r => alpha * (-2 + 3 / 2 * r)))
               (Np.newaxis1 (Np.compress I1 Rij)))
          (Np.compress I1 dxij)))
    dW_zeros.

(** The divisor [h * rij[I2][:, np.newaxis]] of the second assignment. *)
Definition dW_divisor : list (list float) :=
  map (map (mul h)) (Np.newaxis1 (Np.compress I2 rij)).

(** [dW[I2] = alpha * (-1 / 2 * (2 - R[I2][:, np.newaxis]) ** 2)
               * dxij[I2, :] / (h * rij[I2][:, np.newaxis])]. *)
Definition dW : list (list (list float)) :=
  Np.scatter I2
    (Np.bcast2 div
       (Np.bcast2 mul
          (map (map (fun r => alpha * (-1 / 2 * ((2 - r) * (2 - r)))))
               (Np.newaxis1 (Np.compress I2 Rij)))
          (Np.compress I2 dxij))
       dW_divisor)
    dW_first.

End Cells.

(** Entrywise reading of the cells, as in [Kernel]; the lemma
    [binary64_dW_unfold] below proves that the cells compute exactly
    this. *)
Definition R_entry (h : float) (v : list float) : float := norm v / h.

Definition dW_entry (h alpha : float) (v : list float) : list float :=
  if in_I2 (R_entry h v) then
    map (fun x => x / (h * norm v))
        (map (mul (alpha * (-1 / 2 * ((2 - R_entry h v) * (2 - R_entry h v)))))
             v)
  else if in_I1 (R_entry h v) then
    map (fun x => x / hsq h)
        (map (mul (alpha * (-2 + 3 / 2 * R_entry h v))) v)
  else map (fun _ => 0) v.

(** Kinds of binary64 values, read off their decoding: the positive zero,
    a zero of either sign, not-a-number. *)
Definition is_pzero (x : float) : Prop :=
  FloatOps.Prim2SF x = SpecFloat.S754_zero false.
Definition is_a_zero (x : float) : Prop :=
  exists s, FloatOps.Prim2SF x = SpecFloat.S754_zero s.
Definition is_a_nan (x : float) : Prop :=
  FloatOps.Prim2SF x = SpecFloat.S754_nan.

End Binary64.

(** ** Dot product of the pairwise differences (third part) *)

Module Dot.
Import Np.

(** An array of any number of dimensions, for [np.squeeze], whose result has
    a number of dimensions that depends on the shape of its argument. *)
#[warnings="-register-all"]
Inductive ndarray : Type :=
  | Scalar (x : R)
  | Array (items : list ndarray).

Definition of_array1 (v : list R) : ndarray := Array (map Scalar v).
Definition of_array2 (a : list (list R)) : ndarray :=
  Array (map of_array1 a).
Definition of_array3 (a : list (list (list R))) : ndarray :=
  Array (map of_array2 a).
Definition of_array4 (a : list (list (list (list R)))) : ndarray :=
  Array (map of_array3 a).

(** [np.squeeze]: every axis of length one is removed. *)
Fixpoint squeeze (a : ndarray) : ndarray :=
  match a with
  | Scalar x => Scalar x
  | Array [b] => squeeze b
  | Array l => Array (map squeeze l)
  end.

(** The matrix product of two two-dimensional arrays: row [i] of [a @ b] is
    the combination of the rows of [b] with the entries of row [i] of [a]. *)
Definition matmul (a b : list (list R)) : list (list R) :=
  map (fun row =>
         fold_right (map2 Rplus) (repeat 0 (length (hd [] b)))
                    (map2 (fun c brow => map (Rmult c) brow) row b)) a.

(** [np.einsum("ijk,ijk->ij", a, b)]: for every [i] and [j], the sum over
    [k] of [a[i,j,k] * b[i,j,k]]. *)
Definition einsum_ijk_ijk_ij (a b : list (list (list R))) : list (list R) :=
  map (fun i =>
         map (fun j =>
                sum (map (fun k =>
                            nth k (nth j (nth i a []) []) 0
                            * nth k (nth j (nth i b []) []) 0)
                         (seq 0 (length (hd [] (hd [] a))))))
             (seq 0 (length (hd [] a))))
      (seq 0 (length a)).

(** The dot product of two one-dimensional arrays, entry (i, j) of each
    formulation. *)
Definition dot (v w : list R) : R := sum (map2 Rmult v w).

(** An array of shape (n, m, k). *)
Definition shape3 (n m k : nat) (a : list (list (list R))) : Prop :=
  length a = n
  /\ Forall (fun row => length row = m
                        /\ Forall (fun v => length v = k) row) a.

Section Cells.

Variables dxij dvij : list (list (list R)).

(** [dxdvij_A = np.sum(dxij * dvij, axis=2)]. *)
Definition dxdvij_A : list (list R) := sum_axis2 (bcast3 Rmult dxij dvij).

(** [dxdvij_B = np.einsum("ijk,ijk->ij", dxij, dvij)]. *)
Definition dxdvij_B : list (list R) := einsum_ijk_ijk_ij dxij dvij.

(** [dxdvij_C = np.squeeze(dxij[..., None, :] @ dvij[..., :, None])]: the
    operands have shapes (N, N, 1, 3) and (N, N, 3, 1), the product
    (N, N, 1, 1). *)
Definition dxij_row : list (list (list (list R))) := map newaxis1 dxij.
Definition dvij_col : list (list (list (list R))) := map (map newaxis1) dvij.
Definition dxdvij_C : ndarray :=
  squeeze (of_array4 (bcast2 matmul dxij_row dvij_col)).

End Cells.

(** Indexing with two indices, [a[i, j]]: out of bounds is an [IndexError],
    here [None]; a 0-dimensional array takes no index at all. *)
Definition get2 {A : Type} (a : list (list A)) (i j : nat) : option A :=
  match nth_error a i with
  | Some row => nth_error row j
  | None => None
  end.

Definition nd_get (a : ndarray) (i : nat) : option ndarray :=
  match a with
  | Scalar _ => None
  | Array l => nth_error l i
  end.

Definition nd_get2 (a : ndarray) (i j : nat) : option ndarray :=
  match nd_get a i with
  | Some row => nd_get row j
  | None => None
  end.

(** [np.sum(dxij[i, j] * dvij[i, j])], the dot product of one pair. *)
Definition pair_sum (dxij dvij : list (list (list R))) (i j : nat)
    : option R :=
  match get2 dxij i j, get2 dvij i j with
  | Some v, Some w => Some (sum (bcast Rmult v w))
  | _, _ => None
  end.

End Dot.

(** * Properties *)

(** ** Lists, broadcasting and masks *)

Section ArrayLemmas.
Import Np.

Context {A B C X : Type}.

Lemma map2_map_same (f : A -> B -> C) (u : X -> A) (v : X -> B)
    (l : list X) :
  map2 f (map u l) (map v l) = map (fun x => f (u x) (v x)) l.
Proof.
  unfold map2.
  induction l as [|x l IH]; simpl; [reflexivity|].
  now rewrite IH.
Qed.

Lemma bcast_map_same (f : A -> B -> C) (u : X -> A) (v : X -> B)
    (l : list X) :
  bcast f (map u l) (map v l) = map (fun x => f (u x) (v x)) l.
Proof.
  destruct l as [|x [|y l]]; try reflexivity.
  change (bcast f (map u (x :: y :: l)) (map v (x :: y :: l)))
    with (map2 f (map u (x :: y :: l)) (map v (x :: y :: l))).
  apply map2_map_same.
Qed.

Lemma bcast_same_length (f : A -> B -> C) (la : list A) (lb : list B) :
  length la = length lb -> bcast f la lb = map2 f la lb.
Proof.
  destruct la as [|a [|a' la]], lb as [|b [|b' lb]]; simpl;
    try discriminate; reflexivity.
Qed.

Lemma bcast_singleton_l (f : A -> B -> C) (a : A) (lb : list B) :
  bcast f [a] lb = map (f a) lb.
Proof. reflexivity. Qed.

Lemma bcast_singleton_r (f : A -> B -> C) (la : list A) (b : B) :
  bcast f la [b] = map (fun a => f a b) la.
Proof. destruct la as [|a [|a' la]]; reflexivity. Qed.

Lemma length_map2 (f : A -> B -> C) (la : list A) (lb : list B) :
  length (map2 f la lb) = Nat.min (length la) (length lb).
Proof. unfold map2. now rewrite length_map, length_combine. Qed.

Lemma nth_map2 (f : A -> B -> C) (la : list A) (lb : list B)
    (i : nat) (da : A) (db : B) (dc : C) :
  (i < length la)%nat -> (i < length lb)%nat ->
  nth i (map2 f la lb) dc = f (nth i la da) (nth i lb db).
Proof.
  revert lb i.
  induction la as [|a la IH]; intros [|b lb] [|i] Ha Hb; simpl in *;
    try lia; [reflexivity|].
  apply IH; lia.
Qed.

Lemma nth_map_in (f : A -> B) (l : list A) (i : nat) (da : A) (db : B) :
  (i < length l)%nat -> nth i (map f l) db = f (nth i l da).
Proof.
  intros Hi.
  rewrite (nth_indep _ db (f da)) by now rewrite length_map.
  apply map_nth.
Qed.

End ArrayLemmas.

Section MaskLemmas.
Import Np.

Context {A B V : Type}.

Lemma compress_row_map (g : A -> B) (m : list bool) (a : list A) :
  compress_row m (map g a) = map g (compress_row m a).
Proof.
  revert a.
  induction m as [|b m IH]; intros [|x a]; simpl; try reflexivity.
  destruct b; simpl; now rewrite IH.
Qed.

Lemma compress_map (g : A -> B) (m : list (list bool)) (a : list (list A)) :
  compress m (map (map g) a) = map g (compress m a).
Proof.
  revert a.
  induction m as [|mr m IH]; intros [|ar a]; simpl; try reflexivity.
  now rewrite map_app, compress_row_map, IH.
Qed.

(** A masked assignment whose mask, values and target are all computed
    entrywise from one array is an entrywise choice. *)
Lemma scatter_row_select (q : A -> bool) (f : A -> V) (w : A -> V)
    (a : list A) (rest : list V) :
  scatter_row (map q a) (map f (compress_row (map q a) a) ++ rest) (map w a)
  = (map (fun x => if q x then f x else w x) a, rest).
Proof.
  induction a as [|x a IH]; simpl; [reflexivity|].
  destruct (q x); simpl; now rewrite IH.
Qed.

Lemma scatter_select_rest (q : A -> bool) (f : A -> V) (w : A -> V)
    (a : list (list A)) (rest : list V) :
  scatter (map (map q) a) (map f (compress (map (map q) a) a) ++ rest)
          (map (map w) a)
  = map (map (fun x => if q x then f x else w x)) a.
Proof.
  revert rest.
  induction a as [|ar a IH]; intros rest; simpl; [reflexivity|].
  rewrite map_app, <- app_assoc, scatter_row_select.
  now rewrite IH.
Qed.

Lemma scatter_select (q : A -> bool) (f : A -> V) (w : A -> V)
    (a : list (list A)) :
  scatter (map (map q) a) (map f (compress (map (map q) a) a))
          (map (map w) a)
  = map (map (fun x => if q x then f x else w x)) a.
Proof.
  rewrite <- (app_nil_r (map f _)).
  apply scatter_select_rest.
Qed.

End MaskLemmas.

(** ** The pairwise separation tensor *)

Section Separation.
Import Np.

Lemma outer_difference (pos : list (list R)) :
  bcast3 Rminus (newaxis1 pos) (newaxis0 pos)
  = map (fun p => map (fun q => sub1 p q) pos) pos.
Proof.
  unfold bcast3, newaxis0, newaxis1, sub1.
  rewrite bcast_singleton_r, map_map.
  apply map_ext; intros p.
  apply bcast_singleton_l.
Qed.

Lemma kernel_dxij_unfold (pos : list (list R)) :
  Kernel.dxij pos = map (fun p => map (fun q => sub1 p q) pos) pos.
Proof. apply outer_difference. Qed.

Lemma gravity_dxij_unfold (pos0 vel : list (list R)) :
  Gravity.dxij pos0 vel
  = map (fun p => map (fun q => sub1 p q) (Gravity.pos pos0 vel))
        (Gravity.pos pos0 vel).
Proof. apply outer_difference. Qed.

Lemma nth_outer {T : Type} (f : list R -> list R -> T) (pos : list (list R))
    (i j : nat) (d : T) :
  (i < length pos)%nat -> (j < length pos)%nat ->
  nth j (nth i (map (fun p => map (fun q => f p q) pos) pos) []) d
  = f (nth i pos []) (nth j pos []).
Proof.
  intros Hi Hj.
  rewrite (nth_map_in _ pos i [] []) by exact Hi.
  now rewrite (nth_map_in _ pos j [] d) by exact Hj.
Qed.

Lemma sub1_self (p : list R) : sub1 p p = repeat 0 (length p).
Proof.
  unfold sub1.
  rewrite bcast_same_length by reflexivity.
  unfold map2.
  induction p as [|c p IH]; simpl; [reflexivity|].
  rewrite IH. f_equal. lra.
Qed.

Lemma map2_Rminus_antisym (p q : list R) :
  map2 Rminus p q = map Ropp (map2 Rminus q p).
Proof.
  unfold map2. revert q.
  induction p as [|c p IH]; intros [|e q]; simpl; try reflexivity.
  rewrite IH. f_equal. lra.
Qed.

Lemma sub1_antisym (p q : list R) : sub1 p q = map Ropp (sub1 q p).
Proof.
  unfold sub1.
  destruct p as [|a [|a' p]], q as [|b [|b' q]]; simpl; try reflexivity;
    try (f_equal; lra).
  - f_equal; [lra|]. f_equal; [lra|].
    rewrite map_map. apply map_ext; intros; lra.
  - f_equal; [lra|]. f_equal; [lra|].
    rewrite map_map. apply map_ext; intros; lra.
  - apply (map2_Rminus_antisym (a :: a' :: p) (b :: b' :: q)).
Qed.

(** On arrays of one length, [p - q] is the componentwise difference. *)
Lemma sub1_map2 (p q : list R) :
  length p = length q -> sub1 p q = map2 Rminus p q.
Proof. apply bcast_same_length. Qed.

End Separation.

(** The separation tensor of the kernel cell, the second of the two places
    where the notebook builds it, is taken from the array [pos] of the
    positions.  For all particles i and j: dx[i,j] = pos[i] - pos[j] (for
    i = j as well as for i <> j), component by component when the two rows
    have one length; dx[i,i] is the zero vector; and dx[i,j] = -dx[j,i]. *)
Lemma separation_tensor (pos : list (list R)) (i j : nat) :
  (i < length pos)%nat -> (j < length pos)%nat ->
  nth j (nth i (Kernel.dxij pos) []) []
    = Np.sub1 (nth i pos []) (nth j pos [])
  /\ (length (nth i pos []) = length (nth j pos []) ->
      forall c, (c < length (nth i pos []))%nat ->
        nth c (nth j (nth i (Kernel.dxij pos) []) []) 0
        = nth c (nth i pos []) 0 - nth c (nth j pos []) 0)
  /\ nth i (nth i (Kernel.dxij pos) []) []
     = repeat 0 (length (nth i pos []))
  /\ nth j (nth i (Kernel.dxij pos) []) []
     = map Ropp (nth i (nth j (Kernel.dxij pos) []) []).
Proof.
  intros Hi Hj.
  rewrite kernel_dxij_unfold.
  rewrite !nth_outer by assumption.
  repeat split.
  - intros Hlen c Hc.
    rewrite sub1_map2 by exact Hlen.
    apply (nth_map2 Rminus); lia.
  - apply sub1_self.
  - apply sub1_antisym.
Qed.

Lemma separation_tensor_witness :
  (0 < 2)%nat /\ (1 < 2)%nat
  /\ nth 1 (nth 0 (Kernel.dxij [[0; 0; 0]; [1; 2; 3]]) []) []
     = Np.sub1 [0; 0; 0] [1; 2; 3]
  /\ nth 2 (nth 1 (nth 0 (Kernel.dxij [[0; 0; 0]; [1; 2; 3]]) []) []) 0
     = 0 - 3
  /\ nth 0 (nth 0 (Kernel.dxij [[0; 0; 0]; [1; 2; 3]]) []) [] = [0; 0; 0]
  /\ nth 1 (nth 0 (Kernel.dxij [[0; 0; 0]; [1; 2; 3]]) []) []
     = map Ropp (nth 0 (nth 1 (Kernel.dxij [[0; 0; 0]; [1; 2; 3]]) []) []).
Proof.
  pose proof (separation_tensor [[0; 0; 0]; [1; 2; 3]] 0 1
                ltac:(simpl; lia) ltac:(simpl; lia)) as H.
  destruct H as (Hsub & Hcomp & Hdiag & Hanti).
  split; [lia|]. split; [lia|]. split; [exact Hsub|].
  split; [apply (Hcomp eq_refl 2%nat); simpl; lia|].
  split; [exact Hdiag | exact Hanti].
Defined.

(** ** The kernel cells, entry by entry *)

Section KernelEntries.
Import Np Kernel.

Variables h alpha : R.
Variable pos : list (list R).

Lemma map_map_map {A B C : Type} (f : B -> C) (g : A -> B)
    (a : list (list A)) :
  map (map f) (map (map g) a) = map (map (fun x => f (g x))) a.
Proof.
  rewrite map_map. apply map_ext; intros row. apply map_map.
Qed.

Lemma Rij_unfold : Rij h pos = map (map (R_entry h)) (dxij pos).
Proof. unfold Rij, norm_axis2. now rewrite map_map_map. Qed.

Lemma rij_unfold : rij pos = map (map norm) (dxij pos).
Proof. reflexivity. Qed.

Lemma I1_unfold :
  I1 h pos = map (map (fun v => in_I1 (R_entry h v))) (dxij pos).
Proof. unfold I1. rewrite Rij_unfold. now rewrite map_map_map. Qed.

Lemma I2_unfold :
  I2 h pos = map (map (fun v => in_I2 (R_entry h v))) (dxij pos).
Proof. unfold I2. rewrite Rij_unfold. now rewrite map_map_map. Qed.

Lemma W_first_unfold :
  W_first h alpha pos
  = map (map (fun v => if in_I1 (R_entry h v)
                       then W_branch1 alpha (R_entry h v) else 0))
        (dxij pos).
Proof.
  unfold W_first, W_zeros, zeros_like2.
  rewrite rij_unfold, map_map_map, I1_unfold, Rij_unfold.
  rewrite compress_map, map_map.
  apply (scatter_select (fun v => in_I1 (R_entry h v))
           (fun v => W_branch1 alpha (R_entry h v)) (fun _ => 0)).
Qed.

Lemma W_unfold : W h alpha pos = map (map (W_entry h alpha)) (dxij pos).
Proof.
  unfold W. rewrite W_first_unfold, I2_unfold, Rij_unfold.
  rewrite compress_map, map_map.
  apply (scatter_select (fun v => in_I2 (R_entry h v))
           (fun v => W_branch2 alpha (R_entry h v))).
Qed.

(** The values of a masked assignment of the gradient: a coefficient taken
    from [R[I][:, np.newaxis]] multiplies the selected separation vectors. *)
Lemma coefficient_times_vectors (c : R -> R) (l : list (list R)) :
  bcast2 Rmult (map (map c) (newaxis1 (map (R_entry h) l))) l
  = map (fun v => map (Rmult (c (R_entry h v))) v) l.
Proof.
  unfold bcast2, newaxis1.
  rewrite !map_map. simpl.
  rewrite <- (map_id l) at 2.
  rewrite bcast_map_same.
  apply map_ext; intros v. apply bcast_singleton_l.
Qed.

Lemma vectors_over_divisor (u : list R -> list R) (k : list R -> R)
    (l : list (list R)) :
  bcast2 Rdiv (map u l) (map (fun v => [k v]) l)
  = map (fun v => map (fun x => x / k v) (u v)) l.
Proof.
  unfold bcast2.
  rewrite bcast_map_same.
  apply map_ext; intros v. apply bcast_singleton_r.
Qed.

Lemma dW_first_unfold :
  dW_first h alpha pos
  = map (map (fun v => if in_I1 (R_entry h v)
                       then map (fun x => x / h ^ 2)
                              (map (Rmult (alpha * (-2 + 3 / 2 * R_entry h v)))
                                   v)
                       else map (fun _ => 0) v))
        (dxij pos).
Proof.
  unfold dW_first, dW_zeros, zeros_like3.
  rewrite I1_unfold, Rij_unfold, compress_map.
  rewrite (coefficient_times_vectors (fun r => alpha * (-2 + 3 / 2 * r))).
  rewrite map_map.
  apply (scatter_select (fun v => in_I1 (R_entry h v))
           (fun v => map (fun x => x / h ^ 2)
                       (map (Rmult (alpha * (-2 + 3 / 2 * R_entry h v))) v))
           (map (fun _ => 0))).
Qed.

Lemma dW_divisor_unfold :
  dW_divisor h pos
  = map (fun v => [h * norm v])
        (compress (map (map (fun v => in_I2 (R_entry h v))) (dxij pos))
                  (dxij pos)).
Proof.
  unfold dW_divisor, newaxis1.
  rewrite I2_unfold, rij_unfold, compress_map, !map_map.
  reflexivity.
Qed.

Lemma dW_unfold : dW h alpha pos = map (map (dW_entry h alpha)) (dxij pos).
Proof.
  unfold dW.
  rewrite dW_divisor_unfold, dW_first_unfold.
  rewrite I2_unfold, Rij_unfold, compress_map.
  rewrite (coefficient_times_vectors (fun r => alpha * (-1 / 2 * (2 - r) ^ 2))).
  rewrite (vectors_over_divisor
             (fun v => map (Rmult (alpha * (-1 / 2 * (2 - R_entry h v) ^ 2))) v)
             (fun v => h * norm v)).
  apply (scatter_select (fun v => in_I2 (R_entry h v))
           (fun v => map (fun x => x / (h * norm v))
                       (map (Rmult (alpha * (-1 / 2 * (2 - R_entry h v) ^ 2)))
                            v))).
Qed.

Lemma nth_dxij (i j : nat) :
  (i < length pos)%nat -> (j < length pos)%nat ->
  nth j (nth i (dxij pos) []) [] = sub1 (nth i pos []) (nth j pos []).
Proof.
  intros Hi Hj. rewrite kernel_dxij_unfold. now apply nth_outer.
Qed.

(** Reading entry (i, j) of an array computed entrywise from [dxij]. *)
Lemma nth_entrywise {T : Type} (F : list R -> T) (i j : nat) (d : T) :
  (i < length pos)%nat -> (j < length pos)%nat ->
  nth j (nth i (map (map F) (dxij pos)) []) d
  = F (sub1 (nth i pos []) (nth j pos [])).
Proof.
  intros Hi Hj.
  rewrite kernel_dxij_unfold, map_map.
  rewrite (map_ext _ (fun p => map (fun q => F (sub1 p q)) pos))
    by (intros p; apply map_map).
  now apply (nth_outer (fun p q => F (sub1 p q))).
Qed.

End KernelEntries.

(** ** Norms and mask conditions *)

Section NormFacts.
Import Np Kernel.

Lemma Rleb_true (x y : R) : Rleb x y = true <-> x <= y.
Proof. unfold Rleb. destruct (Rle_dec x y); split; intros; easy. Qed.

Lemma Rltb_true (x y : R) : Rltb x y = true <-> x < y.
Proof. unfold Rltb. destruct (Rlt_dec x y); split; intros; easy. Qed.

Lemma in_I1_true (r : R) : in_I1 r = true <-> 0 <= r < 1.
Proof.
  unfold in_I1. rewrite andb_true_iff, Rleb_true, Rltb_true. tauto.
Qed.

Lemma in_I2_true (r : R) : in_I2 r = true <-> 1 <= r < 2.
Proof.
  unfold in_I2. rewrite andb_true_iff, Rleb_true, Rltb_true. tauto.
Qed.

Lemma in_I1_false (r : R) : in_I1 r = false <-> ~ (0 <= r < 1).
Proof. rewrite <- in_I1_true. destruct (in_I1 r); split; intros; easy. Qed.

Lemma in_I2_false (r : R) : in_I2 r = false <-> ~ (1 <= r < 2).
Proof. rewrite <- in_I2_true. destruct (in_I2 r); split; intros; easy. Qed.

Lemma sum_squares_nonneg (v : list R) : 0 <= sum (map (fun c => c * c) v).
Proof.
  induction v as [|c v IH]; simpl; [lra|].
  pose proof (Rle_0_sqr c) as Hc. unfold Rsqr in Hc. lra.
Qed.

Lemma norm_nonneg (v : list R) : 0 <= norm v.
Proof. apply sqrt_pos. Qed.

Lemma sum_squares_zeros (k : nat) :
  sum (map (fun c => c * c) (repeat 0 k)) = 0.
Proof. induction k as [|k IH]; simpl; [reflexivity|]. rewrite IH. lra. Qed.

Lemma norm_zeros (k : nat) : norm (repeat 0 k) = 0.
Proof. unfold norm. rewrite sum_squares_zeros. apply sqrt_0. Qed.

Lemma norm_opp (v : list R) : norm (map Ropp v) = norm v.
Proof.
  unfold norm. f_equal. rewrite map_map. f_equal.
  apply map_ext; intros c. lra.
Qed.

(** A vector of norm zero has only zero components. *)
Lemma sum_squares_zero_inv (v : list R) :
  sum (map (fun c => c * c) v) = 0 -> v = repeat 0 (length v).
Proof.
  induction v as [|c v IH]; simpl; [reflexivity|]. intros H.
  pose proof (sum_squares_nonneg v) as Hv.
  pose proof (Rle_0_sqr c) as Hc. unfold Rsqr in Hc.
  assert (Hc0 : c * c = 0) by lra.
  assert (c = 0) by (apply Rsqr_0_uniq; exact Hc0).
  subst c. f_equal. apply IH. lra.
Qed.

Lemma norm_zero_inv (v : list R) : norm v = 0 -> v = repeat 0 (length v).
Proof.
  unfold norm. intros H.
  apply sum_squares_zero_inv.
  apply sqrt_eq_0; [apply sum_squares_nonneg | exact H].
Qed.

Lemma R_entry_nonneg (h : R) (v : list R) : 0 < h -> 0 <= R_entry h v.
Proof.
  intros Hh. unfold R_entry.
  apply Rmult_le_pos; [apply norm_nonneg|].
  left. now apply Rinv_0_lt_compat.
Qed.

Lemma R_entry_zeros (h : R) (k : nat) : R_entry h (repeat 0 k) = 0.
Proof. unfold R_entry. rewrite norm_zeros. unfold Rdiv. lra. Qed.

(** Evaluating a square root at a known value. *)
Lemma sqrt_value (x y : R) : 0 <= y -> y * y = x -> sqrt x = y.
Proof. intros Hy Hx. subst x. now apply sqrt_square. Qed.

End NormFacts.

(** ** The kernel [W] *)

(** C4.  For every pair (i, j) and every h > 0, with R = ||dx[i,j]|| / h:
    R is non-negative; the masks select 0 <= R < 1 and 1 <= R < 2, never
    both, and neither exactly when R >= 2; the cells leave
    W[i,j] = alpha * (2/3 - R^2 + R^3/2) when 0 <= R < 1,
    W[i,j] = alpha * (2 - R)^3 / 6 when 1 <= R < 2 and W[i,j] = 0 when
    R >= 2; R = 1 takes the value of the second branch and R = 2 the value
    zero. *)
Theorem kernel_piecewise (h alpha : R) (pos : list (list R)) (i j : nat) :
  0 < h -> (i < length pos)%nat -> (j < length pos)%nat ->
  let r := nth j (nth i (Kernel.Rij h pos) []) 0 in
  let w := nth j (nth i (Kernel.W h alpha pos) []) 0 in
  let m1 := nth j (nth i (Kernel.I1 h pos) []) false in
  let m2 := nth j (nth i (Kernel.I2 h pos) []) false in
  r = Np.norm (nth j (nth i (Kernel.dxij pos) []) []) / h
  /\ 0 <= r
  /\ (m1 = true <-> 0 <= r < 1)
  /\ (m2 = true <-> 1 <= r < 2)
  /\ (m1 && m2 = false)
  /\ (m1 || m2 = false <-> 2 <= r)
  /\ (0 <= r < 1 -> w = alpha * (2 / 3 - r ^ 2 + r ^ 3 / 2))
  /\ (1 <= r < 2 -> w = alpha * (2 - r) ^ 3 / 6)
  /\ (2 <= r -> w = 0)
  /\ (r = 1 -> w = alpha * (2 - 1) ^ 3 / 6)
  /\ (r = 2 -> w = 0).
Proof.
  intros Hh Hi Hj. cbv zeta.
  rewrite nth_dxij by assumption.
  rewrite Rij_unfold, W_unfold, I1_unfold, I2_unfold.
  rewrite !(nth_entrywise pos _ i j) by assumption.
  set (v := Np.sub1 (nth i pos []) (nth j pos [])).
  pose proof (R_entry_nonneg h v Hh) as Hr.
  unfold Kernel.W_entry, Kernel.W_branch1, Kernel.W_branch2.
  change (Np.norm v / h) with (Kernel.R_entry h v).
  set (r := Kernel.R_entry h v) in *.
  pose proof (in_I1_true r) as H1. pose proof (in_I2_true r) as H2.
  split; [reflexivity|]. split; [exact Hr|].
  split; [exact H1|]. split; [exact H2|].
  destruct (Kernel.in_I1 r) eqn:E1, (Kernel.in_I2 r) eqn:E2.
  - exfalso. destruct H1 as [H1 _], H2 as [H2 _].
    specialize (H1 eq_refl). specialize (H2 eq_refl). lra.
  - destruct H1 as [H1 _]. specialize (H1 eq_refl).
    repeat split; intros; try discriminate; try lra; try (exfalso; lra).
  - destruct H2 as [H2 _]. specialize (H2 eq_refl).
    repeat split; intros; try discriminate; try lra; try (exfalso; lra).
    match goal with H : _ = 1 |- _ => rewrite H end. field.
  - assert (N1 : ~ (0 <= r < 1))
      by (intros Habs; apply H1 in Habs; discriminate).
    assert (N2 : ~ (1 <= r < 2))
      by (intros Habs; apply H2 in Habs; discriminate).
    repeat split; intros; try discriminate; try lra; try (exfalso; lra).
Qed.

Lemma norm_value (v : list R) (y : R) :
  0 <= y -> y * y = Np.sum (map (fun c => c * c) v) -> Np.norm v = y.
Proof. intros Hy Hv. unfold Np.norm. now apply sqrt_value. Qed.

Lemma kernel_piecewise_witness :
  0 < 1 /\ (0 < 2)%nat /\ (1 < 2)%nat
  /\ nth 1 (nth 0 (Kernel.Rij 1 [[0; 0; 0]; [1; 0; 0]]) []) 0 = 1
  /\ nth 1 (nth 0 (Kernel.I1 1 [[0; 0; 0]; [1; 0; 0]]) []) false = false
  /\ nth 1 (nth 0 (Kernel.I2 1 [[0; 0; 0]; [1; 0; 0]]) []) false = true
  /\ nth 1 (nth 0 (Kernel.W 1 1 [[0; 0; 0]; [1; 0; 0]]) []) 0
     = 1 * (2 - 1) ^ 3 / 6.
Proof.
  pose proof (kernel_piecewise 1 1 [[0; 0; 0]; [1; 0; 0]] 0 1
                ltac:(lra) ltac:(simpl; lia) ltac:(simpl; lia)) as H.
  cbv zeta in H.
  destruct H as (Hr & _ & H1 & H2 & _ & _ & _ & _ & _ & Hw & _).
  assert (Hone : nth 1 (nth 0 (Kernel.Rij 1 [[0; 0; 0]; [1; 0; 0]]) []) 0 = 1).
  { rewrite Hr. cbn.
    rewrite (norm_value _ 1); [lra | lra | simpl; lra]. }
  split; [lra|]. split; [lia|]. split; [lia|].
  split; [exact Hone|].
  split; [|split].
  - destruct (nth 1 (nth 0 (Kernel.I1 1 [[0; 0; 0]; [1; 0; 0]]) []) false);
      [|reflexivity].
    destruct H1 as [H1 _]. specialize (H1 eq_refl). lra.
  - apply H2. lra.
  - apply Hw. exact Hone.
Defined.

(** The kernel example of the specification: with h = 1 and alpha = 1 the
    entry of two particles half a smoothing length apart is
    2/3 - 0.25 + 0.0625 = 23/48 (0.4792 to four places). *)
Example kernel_example :
  nth 1 (nth 0 (Kernel.W 1 1 [[0; 0; 0]; [1 / 2; 0; 0]]) []) 0 = 23 / 48
  /\ 4791 / 10000 < 23 / 48 < 4792 / 10000.
Proof.
  split; [|lra].
  rewrite W_unfold, (nth_entrywise _ _ 0 1) by (simpl; lia).
  cbn. unfold Kernel.W_entry, Kernel.R_entry.
  rewrite (norm_value _ (1 / 2)); [| lra | simpl; lra].
  replace (1 / 2 / 1) with (1 / 2) by lra.
  assert (E2 : Kernel.in_I2 (1 / 2) = false) by (apply in_I2_false; lra).
  assert (E1 : Kernel.in_I1 (1 / 2) = true) by (apply in_I1_true; lra).
  rewrite E2, E1. unfold Kernel.W_branch1. lra.
Qed.

Section Boundaries.
Import PrimFloat.

(** In exact arithmetic both branches give alpha / 6 at R = 1, and the
    second gives 0 at R = 2. *)
Lemma branches_meet (alpha : R) :
  Kernel.W_branch1 alpha 1 = alpha / 6
  /\ Kernel.W_branch2 alpha 1 = alpha / 6
  /\ Kernel.W_branch2 alpha 2 = 0.
Proof.
  repeat split.
  - unfold Kernel.W_branch1; field.
  - unfold Kernel.W_branch2; field.
  - unfold Kernel.W_branch2; field.
Qed.

(** On binary64 numbers a product with the positive zero is a zero whenever
    the other factor is finite. *)
Lemma mul_zero_finite (a : float) :
  is_finite a = true -> is_zero (a * 0)%float = true.
Proof.
  intros Ha.
  assert (Hn : is_nan a = false /\ is_infinity a = false).
  { unfold is_finite in Ha.
    destruct (is_nan a), (is_infinity a); try discriminate; now split. }
  destruct Hn as (Hn & Hi).
  unfold is_nan in Hn. unfold is_infinity in Hi. unfold is_zero.
  rewrite FloatAxioms.eqb_spec in *.
  rewrite FloatAxioms.abs_spec in Hi.
  rewrite FloatAxioms.mul_spec.
  destruct (FloatOps.Prim2SF a) as [sa|sa| |sa ma ea];
    try discriminate; try (destruct sa; discriminate);
    destruct sa; reflexivity.
Qed.

(** C7, as the cells compute it.  In exact arithmetic, for every alpha, the
    first and the second branch both give alpha / 6 at R = 1 and the second
    branch gives 0, the value of the third, at R = 2.  In binary64, with the
    alpha = 1 of the notebook, the two branches differ at R = 1 in the last
    place (0.16666666666666663 against 0.16666666666666666) and agree
    within 1e-12; at R = 2 the second branch is a zero for every finite
    alpha. *)
Theorem kernel_continuity (alpha : R) (a : float) :
  is_finite a = true ->
  Kernel.W_branch1 alpha 1 = alpha / 6
  /\ Kernel.W_branch2 alpha 1 = alpha / 6
  /\ Kernel.W_branch1 alpha 1 = Kernel.W_branch2 alpha 1
  /\ Kernel.W_branch2 alpha 2 = 0
  /\ (Binary64.W_branch1 1 1 =? Binary64.W_branch2 1 1)%float = false
  /\ (abs (Binary64.W_branch1 1 1 - Binary64.W_branch2 1 1)
      <=? Binary64.tolerance)%float = true
  /\ is_zero (Binary64.W_branch2 a 2) = true.
Proof.
  intros Ha.
  destruct (branches_meet alpha) as (H1 & H2 & H3).
  split; [exact H1|]. split; [exact H2|].
  split; [now rewrite H1, H2|]. split; [exact H3|].
  split; [vm_compute; reflexivity|].
  split; [vm_compute; reflexivity|].
  unfold Binary64.W_branch2.
  replace (1 / 6 * ((2 - 2) * (2 - 2) * (2 - 2)))%float with 0%float
    by (vm_compute; reflexivity).
  now apply mul_zero_finite.
Qed.

Lemma kernel_continuity_witness :
  is_finite 1 = true
  /\ Kernel.W_branch1 3 1 = Kernel.W_branch2 3 1
  /\ (abs (Binary64.W_branch1 1 1 - Binary64.W_branch2 1 1)
      <=? Binary64.tolerance)%float = true
  /\ is_zero (Binary64.W_branch2 1 2) = true.
Proof.
  pose proof (kernel_continuity 3 1%float eq_refl) as H.
  destruct H as (_ & _ & Heq & _ & _ & Htol & Hzero).
  split; [reflexivity|]. split; [exact Heq|]. split; [exact Htol|].
  exact Hzero.
Defined.

(** C7 fails as stated.  The claim is made for every alpha; in binary64,
    with alpha = 65536, the two branches give 10922.666666666664 and
    10922.666666666666 at R = 1: they differ by more than 1e-12. *)
Lemma kernel_continuity_large_alpha :
  is_finite 65536 = true
  /\ (abs (Binary64.W_branch1 65536 1 - Binary64.W_branch2 65536 1)
      <=? Binary64.tolerance)%float = false
  /\ (Binary64.tolerance
      <? abs (Binary64.W_branch1 65536 1
              - Binary64.W_branch2 65536 1))%float = true.
Proof. repeat split; vm_compute; reflexivity. Qed.

End Boundaries.

Section SumLemmas.
Import Np.

Lemma sum_app (l1 l2 : list R) : sum (l1 ++ l2) = sum l1 + sum l2.
Proof. induction l1 as [|x l1 IH]; simpl; [lra|]. rewrite IH. lra. Qed.

(** A sum over an axis is the entry at [i] plus the sum of the others. *)
Lemma sum_split_nth (l : list R) (i : nat) :
  (i < length l)%nat ->
  sum l = nth i l 0 + sum (firstn i l ++ skipn (S i) l).
Proof.
  revert i.
  induction l as [|x l IH]; intros [|i] Hi; simpl in *; try lia; [lra|].
  rewrite (IH i) by lia. lra.
Qed.

End SumLemmas.

Lemma length_nth_entrywise {T : Type} (F : list R -> T)
    (pos : list (list R)) (i : nat) :
  (i < length pos)%nat ->
  length (nth i (map (map F) (Kernel.dxij pos)) []) = length pos.
Proof.
  intros Hi.
  rewrite kernel_dxij_unfold, map_map.
  rewrite (nth_map_in _ pos i [] []) by exact Hi.
  now rewrite !length_map.
Qed.

(** C10.  For every particle i and every h > 0 the self pair has R = 0 and
    is selected by the first mask, so W[i,i] = alpha * 2/3, which is
    non-zero whenever alpha is; a sum of row i of W over all j is this self
    term plus the sum over the other entries. *)
Theorem kernel_diagonal (h alpha : R) (pos : list (list R)) (i : nat) :
  0 < h -> (i < length pos)%nat ->
  nth i (nth i (Kernel.Rij h pos) []) 0 = 0
  /\ nth i (nth i (Kernel.I1 h pos) []) false = true
  /\ nth i (nth i (Kernel.W h alpha pos) []) 0 = alpha * 2 / 3
  /\ (alpha <> 0 -> nth i (nth i (Kernel.W h alpha pos) []) 0 <> 0)
  /\ Np.sum (nth i (Kernel.W h alpha pos) [])
     = alpha * 2 / 3
       + Np.sum (firstn i (nth i (Kernel.W h alpha pos) [])
                 ++ skipn (S i) (nth i (Kernel.W h alpha pos) [])).
Proof.
  intros Hh Hi.
  assert (HW : nth i (nth i (Kernel.W h alpha pos) []) 0 = alpha * 2 / 3).
  { rewrite W_unfold, nth_entrywise by assumption.
    rewrite sub1_self. unfold Kernel.W_entry.
    rewrite R_entry_zeros.
    assert (E2 : Kernel.in_I2 0 = false) by (apply in_I2_false; lra).
    assert (E1 : Kernel.in_I1 0 = true) by (apply in_I1_true; lra).
    rewrite E2, E1. unfold Kernel.W_branch1. field. }
  repeat split.
  - rewrite Rij_unfold, nth_entrywise by assumption.
    rewrite sub1_self. apply R_entry_zeros.
  - rewrite I1_unfold, nth_entrywise by assumption.
    rewrite sub1_self, R_entry_zeros. apply in_I1_true. lra.
  - exact HW.
  - intros Ha. rewrite HW. lra.
  - rewrite <- HW. apply sum_split_nth.
    rewrite W_unfold, length_nth_entrywise; assumption.
Qed.

Lemma kernel_diagonal_witness :
  0 < 1 /\ (1 < 2)%nat
  /\ nth 1 (nth 1 (Kernel.W 1 1 [[0; 0; 0]; [1; 0; 0]]) []) 0 = 1 * 2 / 3
  /\ nth 1 (nth 1 (Kernel.W 1 1 [[0; 0; 0]; [1; 0; 0]]) []) 0 <> 0.
Proof.
  pose proof (kernel_diagonal 1 1 [[0; 0; 0]; [1; 0; 0]] 1
                ltac:(lra) ltac:(simpl; lia)) as H.
  destruct H as (_ & _ & HW & Hnz & _).
  split; [lra|]. split; [lia|]. split; [exact HW|].
  apply Hnz. lra.
Defined.

(** ** Entries selected by a mask *)

Lemma compress_row_selected {A : Type} (q : A -> bool) (a : list A) :
  Forall (fun x => q x = true) (Np.compress_row (map q a) a).
Proof.
  induction a as [|x a IH]; simpl; [constructor|].
  destruct (q x) eqn:E; [constructor; assumption | assumption].
Qed.

(** Indexing an array by a mask computed entrywise from it returns only
    entries that satisfy the mask condition. *)
Lemma compress_selected {A : Type} (q : A -> bool) (a : list (list A)) :
  Forall (fun x => q x = true) (Np.compress (map (map q) a) a).
Proof.
  induction a as [|ar a IH]; simpl; [constructor|].
  apply Forall_app. split; [apply compress_row_selected | exact IH].
Qed.

(** ** The kernel gradient on binary64 numbers *)

Section Binary64Entries.
Import Np PrimFloat.
Local Open Scope float_scope.

Lemma outer_broadcast {T : Type} (f : T -> T -> T) (l : list (list T)) :
  bcast3 f (newaxis1 l) (newaxis0 l)
  = map (fun p => map (fun q => bcast f p q) l) l.
Proof.
  unfold bcast3, newaxis0, newaxis1.
  rewrite bcast_singleton_r, map_map.
  apply map_ext; intros p.
  apply bcast_singleton_l.
Qed.

Lemma nth_outer_entry {X T : Type} (F : X -> X -> T) (l : list X)
    (i j : nat) (dx : X) (d : T) :
  (i < length l)%nat -> (j < length l)%nat ->
  nth j (nth i (map (fun p => map (fun q => F p q) l) l) []) d
  = F (nth i l dx) (nth j l dx).
Proof.
  intros Hi Hj.
  rewrite (nth_map_in _ l i dx []) by exact Hi.
  now rewrite (nth_map_in _ l j dx d) by exact Hj.
Qed.

Lemma coefficient_broadcast {T : Type} (m : T -> T -> T) (k : list T -> T)
    (l : list (list T)) :
  bcast2 m (map (fun v => [k v]) l) l
  = map (fun v => map (m (k v)) v) l.
Proof.
  unfold bcast2.
  rewrite <- (map_id l) at 2.
  rewrite bcast_map_same.
  apply map_ext; intros v. apply bcast_singleton_l.
Qed.

Lemma divisor_broadcast {T : Type} (d : T -> T -> T) (u : list T -> list T)
    (k : list T -> T) (l : list (list T)) :
  bcast2 d (map u l) (map (fun v => [k v]) l)
  = map (fun v => map (fun x => d x (k v)) (u v)) l.
Proof.
  unfold bcast2.
  rewrite bcast_map_same.
  apply map_ext; intros v. apply bcast_singleton_r.
Qed.

Variables h alpha : float.
Variable pos : list (list float).

Lemma binary64_dxij_unfold :
  Binary64.dxij pos = map (fun p => map (fun q => bcast sub p q) pos) pos.
Proof. apply outer_broadcast. Qed.

Lemma binary64_Rij_unfold :
  Binary64.Rij h pos = map (map (Binary64.R_entry h)) (Binary64.dxij pos).
Proof. unfold Binary64.Rij. now rewrite map_map_map. Qed.

Lemma binary64_I1_unfold :
  Binary64.I1 h pos
  = map (map (fun v => Binary64.in_I1 (Binary64.R_entry h v)))
        (Binary64.dxij pos).
Proof.
  unfold Binary64.I1. rewrite binary64_Rij_unfold. now rewrite map_map_map.
Qed.

Lemma binary64_I2_unfold :
  Binary64.I2 h pos
  = map (map (fun v => Binary64.in_I2 (Binary64.R_entry h v)))
        (Binary64.dxij pos).
Proof.
  unfold Binary64.I2. rewrite binary64_Rij_unfold. now rewrite map_map_map.
Qed.

Lemma binary64_dW_first_unfold :
  Binary64.dW_first h alpha pos
  = map (map (fun v =>
                if Binary64.in_I1 (Binary64.R_entry h v)
                then map (fun x => x / Binary64.hsq h)
                       (map (mul (alpha * (-2 + 3 / 2 * Binary64.R_entry h v)))
                            v)
                else map (fun _ => 0) v))
        (Binary64.dxij pos).
Proof.
  unfold Binary64.dW_first, Binary64.dW_zeros, newaxis1.
  rewrite binary64_I1_unfold, binary64_Rij_unfold, compress_map.
  rewrite !map_map. cbn [map].
  rewrite (coefficient_broadcast mul
             (fun v => alpha * (-2 + 3 / 2 * Binary64.R_entry h v))).
  rewrite map_map.
  apply (scatter_select
           (fun v => Binary64.in_I1 (Binary64.R_entry h v))
           (fun v => map (fun x => x / Binary64.hsq h)
                       (map (mul (alpha
                                  * (-2 + 3 / 2 * Binary64.R_entry h v))) v))
           (map (fun _ => 0))).
Qed.

Lemma binary64_dW_unfold :
  Binary64.dW h alpha pos
  = map (map (Binary64.dW_entry h alpha)) (Binary64.dxij pos).
Proof.
  unfold Binary64.dW, Binary64.dW_divisor, Binary64.rij, newaxis1.
  rewrite binary64_dW_first_unfold.
  rewrite binary64_I2_unfold, binary64_Rij_unfold, !compress_map.
  rewrite !map_map. cbn [map].
  rewrite (coefficient_broadcast mul
             (fun v => alpha * (-1 / 2 * ((2 - Binary64.R_entry h v)
                                          * (2 - Binary64.R_entry h v))))).
  rewrite (divisor_broadcast div
             (fun v => map (mul (alpha
                                 * (-1 / 2 * ((2 - Binary64.R_entry h v)
                                              * (2 - Binary64.R_entry h v)))))
                           v)
             (fun v => h * Binary64.norm v)).
  apply (scatter_select
           (fun v => Binary64.in_I2 (Binary64.R_entry h v))
           (fun v => map (fun x => x / (h * Binary64.norm v))
                       (map (mul (alpha
                                  * (-1 / 2 * ((2 - Binary64.R_entry h v)
                                               * (2 - Binary64.R_entry h v)))))
                            v))).
Qed.

(** Reading entry (i, j) of an array computed entrywise from [dxij]. *)
Lemma binary64_nth_entrywise {T : Type} (F : list float -> T) (i j : nat)
    (d : T) :
  (i < length pos)%nat -> (j < length pos)%nat ->
  nth j (nth i (map (map F) (Binary64.dxij pos)) []) d
  = F (bcast sub (nth i pos []) (nth j pos [])).
Proof.
  intros Hi Hj.
  rewrite binary64_dxij_unfold, map_map.
  rewrite (map_ext _ (fun p => map (fun q => F (bcast sub p q)) pos))
    by (intros p; apply map_map).
  now apply (nth_outer_entry (fun p q => F (bcast sub p q))).
Qed.

End Binary64Entries.

Section Binary64Values.
Import PrimFloat FloatOps FloatAxioms SpecFloat.
Local Open Scope float_scope.

(** A finite value decodes to a zero or to a finite number. *)
Lemma finite_decode (x : float) :
  is_finite x = true ->
  match Prim2SF x with
  | S754_zero _ | S754_finite _ _ _ => True
  | _ => False
  end.
Proof.
  unfold is_finite, is_nan, is_infinity.
  rewrite !eqb_spec, abs_spec.
  destruct (Prim2SF x) as [s|s| |s m e]; try exact (fun _ => I).
  - destruct s; discriminate.
  - discriminate.
Qed.

Lemma finite_nonzero_decode (x : float) :
  is_finite x = true -> is_zero x = false ->
  exists s m e, Prim2SF x = S754_finite s m e.
Proof.
  intros Hf Hz. apply finite_decode in Hf.
  unfold is_zero in Hz. rewrite eqb_spec in Hz.
  destruct (Prim2SF x) as [s|s| |s m e]; try contradiction.
  - destruct s; discriminate.
  - now exists s, m, e.
Qed.

Lemma zero_is_zero (x : float) : Binary64.is_a_zero x -> is_zero x = true.
Proof.
  intros [s H]. unfold is_zero. rewrite eqb_spec, H.
  destruct s; reflexivity.
Qed.

Lemma pzero_a_zero (x : float) : Binary64.is_pzero x -> Binary64.is_a_zero x.
Proof. intros H. now exists false. Qed.

(** [x - x] is the positive zero, or not-a-number when [x] is not finite. *)
Lemma sub_self_any (x : float) :
  Binary64.is_pzero (x - x) \/ Binary64.is_a_nan (x - x).
Proof.
  unfold Binary64.is_pzero, Binary64.is_a_nan. rewrite sub_spec.
  destruct (Prim2SF x) as [s|s| |s m e].
  - left. destruct s; reflexivity.
  - right. destruct s; reflexivity.
  - right. reflexivity.
  - left. unfold SF64sub, SFsub. rewrite Z.sub_diag. reflexivity.
Qed.

Lemma sub_self_finite (x : float) :
  is_finite x = true -> Binary64.is_pzero (x - x).
Proof.
  intros Hf. apply finite_decode in Hf.
  unfold Binary64.is_pzero. rewrite sub_spec.
  destruct (Prim2SF x) as [s|s| |s m e]; try contradiction.
  - destruct s; reflexivity.
  - unfold SF64sub, SFsub. rewrite Z.sub_diag. reflexivity.
Qed.

Lemma square_any (a : float) :
  Binary64.is_pzero a \/ Binary64.is_a_nan a ->
  Binary64.is_pzero (a * a) \/ Binary64.is_a_nan (a * a).
Proof.
  unfold Binary64.is_pzero, Binary64.is_a_nan. rewrite mul_spec.
  intros [H|H]; rewrite H; [left | right]; reflexivity.
Qed.

Lemma square_pzero (a : float) :
  Binary64.is_pzero a -> Binary64.is_pzero (a * a).
Proof.
  unfold Binary64.is_pzero. rewrite mul_spec.
  intros H; rewrite H; reflexivity.
Qed.

Lemma add_any (a b : float) :
  Binary64.is_pzero a \/ Binary64.is_a_nan a ->
  Binary64.is_pzero b \/ Binary64.is_a_nan b ->
  Binary64.is_pzero (a + b) \/ Binary64.is_a_nan (a + b).
Proof.
  unfold Binary64.is_pzero, Binary64.is_a_nan. rewrite add_spec.
  intros [Ha|Ha] [Hb|Hb]; rewrite Ha, Hb; [left | right ..]; reflexivity.
Qed.

Lemma add_pzero (a b : float) :
  Binary64.is_pzero a -> Binary64.is_pzero b -> Binary64.is_pzero (a + b).
Proof.
  unfold Binary64.is_pzero. rewrite add_spec.
  intros Ha Hb; rewrite Ha, Hb; reflexivity.
Qed.

Lemma sqrt_any (a : float) :
  Binary64.is_pzero a \/ Binary64.is_a_nan a ->
  Binary64.is_pzero (sqrt a) \/ Binary64.is_a_nan (sqrt a).
Proof.
  unfold Binary64.is_pzero, Binary64.is_a_nan. rewrite sqrt_spec.
  intros [H|H]; rewrite H; [left | right]; reflexivity.
Qed.

Lemma sqrt_pzero (a : float) :
  Binary64.is_pzero a -> Binary64.is_pzero (sqrt a).
Proof.
  unfold Binary64.is_pzero. rewrite sqrt_spec.
  intros H; rewrite H; reflexivity.
Qed.

Lemma pzero_literal : Binary64.is_pzero 0.
Proof. reflexivity. Qed.

(** The norm of a vector of positive zeros is the positive zero; with
    not-a-number among the components it is one of the two. *)
Lemma norm_any (v : list float) :
  Forall (fun c => Binary64.is_pzero c \/ Binary64.is_a_nan c) v ->
  Binary64.is_pzero (Binary64.norm v) \/ Binary64.is_a_nan (Binary64.norm v).
Proof.
  intros Hv. unfold Binary64.norm, Binary64.sum.
  apply sqrt_any.
  assert (H0 : Binary64.is_pzero 0 \/ Binary64.is_a_nan 0)
    by (left; exact pzero_literal).
  revert H0. generalize 0 as acc.
  induction Hv as [|c v Hc _ IH]; intros acc Hacc; [exact Hacc|].
  cbn [map fold_left]. apply IH.
  apply add_any; [exact Hacc | now apply square_any].
Qed.

Lemma norm_pzero (v : list float) :
  Forall Binary64.is_pzero v -> Binary64.is_pzero (Binary64.norm v).
Proof.
  intros Hv. unfold Binary64.norm, Binary64.sum.
  apply sqrt_pzero.
  generalize pzero_literal. generalize 0 as acc.
  induction Hv as [|c v Hc _ IH]; intros acc Hacc; [exact Hacc|].
  cbn [map fold_left]. apply IH.
  apply add_pzero; [exact Hacc | now apply square_pzero].
Qed.

(** The separation of a row from itself. *)
Lemma self_separation_any (p : list float) :
  Forall (fun c => Binary64.is_pzero c \/ Binary64.is_a_nan c)
         (Np.bcast sub p p).
Proof.
  rewrite bcast_same_length by reflexivity. unfold Np.map2.
  induction p as [|c p IH]; [constructor|].
  cbn [combine map fst snd]. constructor; [apply sub_self_any | exact IH].
Qed.

Lemma self_separation_finite (p : list float) :
  Forall (fun c => is_finite c = true) p ->
  Forall Binary64.is_pzero (Np.bcast sub p p).
Proof.
  intros Hp.
  rewrite bcast_same_length by reflexivity. unfold Np.map2.
  induction Hp as [|c p Hc _ IH]; [constructor|].
  cbn [combine map fst snd].
  constructor; [now apply sub_self_finite | exact IH].
Qed.

Lemma length_self_separation (p : list float) :
  length (Np.bcast sub p p) = length p.
Proof.
  rewrite bcast_same_length by reflexivity.
  rewrite length_map2. apply Nat.min_id.
Qed.

(** A zero or not-a-number divided by any [h] is a zero or not-a-number. *)
Lemma div_any (r h : float) :
  Binary64.is_a_zero r \/ Binary64.is_a_nan r ->
  Binary64.is_a_zero (r / h) \/ Binary64.is_a_nan (r / h).
Proof.
  unfold Binary64.is_a_zero, Binary64.is_a_nan. rewrite div_spec.
  intros [[s H]|H]; rewrite H.
  - destruct (Prim2SF h) as [sh|sh| |sh mh eh].
    + right; reflexivity.
    + left; eexists; reflexivity.
    + right; reflexivity.
    + left; eexists; reflexivity.
  - right. reflexivity.
Qed.

Lemma div_zero_finite (r h : float) :
  Binary64.is_a_zero r ->
  (exists s m e, Prim2SF h = S754_finite s m e) ->
  Binary64.is_a_zero (r / h).
Proof.
  unfold Binary64.is_a_zero. rewrite div_spec.
  intros [s H] (sh & mh & eh & Hh). rewrite H, Hh.
  eexists; reflexivity.
Qed.

(** The masks at a zero and at not-a-number. *)
Lemma in_I2_zero_or_nan (x : float) :
  Binary64.is_a_zero x \/ Binary64.is_a_nan x -> Binary64.in_I2 x = false.
Proof.
  unfold Binary64.in_I2, Binary64.is_a_zero, Binary64.is_a_nan.
  rewrite leb_spec.
  intros [[s H]|H]; rewrite H; reflexivity.
Qed.

Lemma in_I1_zero (x : float) :
  Binary64.is_a_zero x -> Binary64.in_I1 x = true.
Proof.
  unfold Binary64.in_I1, Binary64.is_a_zero.
  rewrite leb_spec, ltb_spec.
  intros [s H]; rewrite H; reflexivity.
Qed.

(** A square that is finite and not zero has a finite, non-zero root. *)
Lemma hsq_decode (h : float) :
  is_finite (Binary64.hsq h) = true -> is_zero (Binary64.hsq h) = false ->
  (exists s m e, Prim2SF h = S754_finite s m e)
  /\ (exists s m e, Prim2SF (Binary64.hsq h) = S754_finite s m e).
Proof.
  intros Hf Hz.
  destruct (finite_nonzero_decode _ Hf Hz) as (s & m & e & E).
  split; [|now exists s, m, e].
  unfold Binary64.hsq in E. rewrite mul_spec in E.
  destruct (Prim2SF h) as [sh|sh| |sh mh eh]; try discriminate.
  now exists sh, mh, eh.
Qed.

(** The coefficient of the first assignment at [R] a zero. *)
Lemma first_coefficient_at_zero (alpha r : float) :
  Binary64.is_a_zero r ->
  alpha * (-2 + 3 / 2 * r) = alpha * -2.
Proof.
  intros [s H]. f_equal.
  apply Prim2SF_inj. rewrite add_spec, mul_spec, H.
  destruct s; reflexivity.
Qed.

(** A finite coefficient times the positive zero, over a finite non-zero
    divisor, is a zero. *)
Lemma zero_component (c d q : float) :
  is_finite c = true -> Binary64.is_pzero d ->
  (exists s m e, Prim2SF q = S754_finite s m e) ->
  is_zero (c * d / q) = true.
Proof.
  intros Hc Hd (s & m & e & Hq). apply finite_decode in Hc.
  apply zero_is_zero. unfold Binary64.is_a_zero.
  rewrite div_spec, mul_spec, Hd, Hq.
  destruct (Prim2SF c) as [sc|sc| |sc mc ec]; try contradiction;
    eexists; reflexivity.
Qed.

(** The entry of a pair of particles at one place, when the coordinates,
    [h**2] and [alpha * -2] are finite and [h**2] is not zero: [r] is the
    positive zero, the first mask selects the pair and the second does not,
    and the gradient has a zero in every component. *)
Lemma dW_entry_same_place (h alpha : float) (p : list float) :
  Forall (fun c => is_finite c = true) p ->
  is_finite (Binary64.hsq h) = true -> is_zero (Binary64.hsq h) = false ->
  is_finite (alpha * -2) = true ->
  Binary64.is_pzero (Binary64.norm (Np.bcast sub p p))
  /\ Binary64.in_I1 (Binary64.R_entry h (Np.bcast sub p p)) = true
  /\ Binary64.in_I2 (Binary64.R_entry h (Np.bcast sub p p)) = false
  /\ Forall (fun x => is_zero x = true)
            (Binary64.dW_entry h alpha (Np.bcast sub p p))
  /\ length (Binary64.dW_entry h alpha (Np.bcast sub p p)) = length p.
Proof.
  intros Hp Hf Hz Ha.
  destruct (hsq_decode h Hf Hz) as (Hh & Hq).
  assert (Hdx := self_separation_finite p Hp).
  assert (Hr := norm_pzero _ Hdx).
  assert (HR : Binary64.is_a_zero (Binary64.R_entry h (Np.bcast sub p p)))
    by (apply div_zero_finite; [now apply pzero_a_zero | exact Hh]).
  assert (E1 := in_I1_zero _ HR).
  assert (E2 := in_I2_zero_or_nan _ (or_introl HR)).
  split; [exact Hr|]. split; [exact E1|]. split; [exact E2|].
  unfold Binary64.dW_entry. rewrite E2, E1.
  rewrite (first_coefficient_at_zero alpha _ HR).
  split; [|now rewrite !length_map, length_self_separation].
  rewrite map_map. apply Forall_map.
  eapply Forall_impl; [|exact Hdx].
  intros d Hd. cbv beta. now apply zero_component.
Qed.

(** For any coordinates and any [h], the second mask does not select a
    pair of particles at one place. *)
Lemma in_I2_same_place (h : float) (p : list float) :
  Binary64.in_I2 (Binary64.R_entry h (Np.bcast sub p p)) = false.
Proof.
  apply in_I2_zero_or_nan. unfold Binary64.R_entry.
  apply div_any.
  destruct (norm_any _ (self_separation_any p)) as [H|H];
    [left; now apply pzero_a_zero | now right].
Qed.

(** The second mask selects no entry whose [r] is a zero or
    not-a-number. *)
Lemma in_I2_divisor (h : float) (v : list float) :
  Binary64.in_I2 (Binary64.R_entry h v) = true ->
  is_zero (Binary64.norm v) = false /\ is_nan (Binary64.norm v) = false.
Proof.
  intros H. unfold Binary64.R_entry in H.
  assert (Hno : ~ (Binary64.is_a_zero (Binary64.norm v)
                   \/ Binary64.is_a_nan (Binary64.norm v))).
  { intros Hc. apply (div_any _ h) in Hc.
    apply in_I2_zero_or_nan in Hc. congruence. }
  unfold Binary64.is_a_zero, Binary64.is_a_nan in Hno.
  unfold is_zero, is_nan. rewrite !eqb_spec.
  destruct (Prim2SF (Binary64.norm v)) as [s|s| |s m e].
  - exfalso. apply Hno. left. now exists s.
  - split; destruct s; reflexivity.
  - exfalso. apply Hno. now right.
  - split; [destruct s; reflexivity|].
    unfold SFeqb, SFcompare.
    rewrite Z.compare_refl, Pos.compare_cont_refl.
    destruct s; reflexivity.
Qed.

End Binary64Values.

Section GradientDiagonal.
Import PrimFloat.
Local Open Scope float_scope.

(** C5, as the cells compute it on binary64 numbers.  For every particle i,
    whatever h and alpha are, the second mask does not select the self
    pair, and no entry that the second assignment divides has r zero or
    not-a-number.  When the coordinates of particle i are finite, [h**2] is
    finite and not zero (it has neither underflowed nor overflowed) and
    [alpha * -2] is finite, the first mask selects the self pair and every
    component of dW[i,i] is a zero, of either sign. *)
Theorem gradient_diagonal (h alpha : float) (pos : list (list float))
    (i : nat) :
  (i < length pos)%nat ->
  nth i (nth i (Binary64.I2 h pos) []) true = false
  /\ Forall (fun r => is_zero r = false /\ is_nan r = false)
            (Np.compress (Binary64.I2 h pos) (Binary64.rij pos))
  /\ (Forall (fun c => is_finite c = true) (nth i pos []) ->
      is_finite (Binary64.hsq h) = true ->
      is_zero (Binary64.hsq h) = false ->
      is_finite (alpha * -2) = true ->
      nth i (nth i (Binary64.I1 h pos) []) false = true
      /\ is_zero (nth i (nth i (Binary64.rij pos) []) nan) = true
      /\ length (nth i (nth i (Binary64.dW h alpha pos) []) [])
         = length (nth i pos [])
      /\ Forall (fun x => is_zero x = true)
                (nth i (nth i (Binary64.dW h alpha pos) []) [])).
Proof.
  intros Hi. split; [|split].
  - rewrite binary64_I2_unfold, binary64_nth_entrywise by assumption.
    apply in_I2_same_place.
  - rewrite binary64_I2_unfold. unfold Binary64.rij.
    rewrite compress_map. apply Forall_map.
    eapply Forall_impl; [|apply compress_selected].
    intros v Hv. cbv beta in Hv. now apply (in_I2_divisor h).
  - intros Hp Hf Hz Ha.
    destruct (dW_entry_same_place h alpha _ Hp Hf Hz Ha)
      as (Hr & E1 & _ & Hzero & Hlen).
    split; [|split; [|split]].
    + now rewrite binary64_I1_unfold, binary64_nth_entrywise by assumption.
    + unfold Binary64.rij.
      rewrite binary64_nth_entrywise by assumption.
      apply zero_is_zero. now apply pzero_a_zero.
    + now rewrite binary64_dW_unfold, binary64_nth_entrywise by assumption.
    + now rewrite binary64_dW_unfold, binary64_nth_entrywise by assumption.
Qed.

Lemma gradient_diagonal_witness :
  (0 < length [[0; 0; 0]; [1; 0; 0]])%nat
  /\ nth 0 (nth 0 (Binary64.I2 0x1p-8 [[0; 0; 0]; [1; 0; 0]]) []) true
     = false
  /\ nth 0 (nth 0 (Binary64.I1 0x1p-8 [[0; 0; 0]; [1; 0; 0]]) []) false
     = true
  /\ Forall (fun x => is_zero x = true)
            (nth 0 (nth 0 (Binary64.dW 0x1p-8 1 [[0; 0; 0]; [1; 0; 0]])
                        []) []).
Proof.
  pose proof (gradient_diagonal 0x1p-8 1 [[0; 0; 0]; [1; 0; 0]] 0
                ltac:(simpl; lia)) as H.
  destruct H as (H2 & _ & H).
  destruct (H ltac:(repeat constructor) eq_refl eq_refl eq_refl)
    as (H1 & _ & _ & Hzero).
  split; [simpl; lia|]. split; [exact H2|]. split; [exact H1 | exact Hzero].
Defined.

(** C5 fails as stated.  Two particles at (0,0,0) and (1,0,0) with
    h = 2^-600 (about 2.4e-181) and alpha = 1: h is positive, [h**2] is
    2^-1200, below the smallest binary64 number, and underflows to 0; the
    first assignment leaves -0.0 / 0.0, not-a-number, in every component of
    dW[0,0] and of dW[1,1].  The diagonal is not the zero vector.  The same
    happens with h = 1e-200, whose binary64 value is
    0x1.87e92154ef7acp-665. *)
Lemma gradient_diagonal_underflow :
  (0 <? 0x1p-600) = true
  /\ Binary64.hsq 0x1p-600 = 0
  /\ nth 0 (nth 0 (Binary64.I1 0x1p-600 [[0; 0; 0]; [1; 0; 0]]) []) false
     = true
  /\ nth 0 (nth 0 (Binary64.dW 0x1p-600 1 [[0; 0; 0]; [1; 0; 0]]) []) []
     = [nan; nan; nan]
  /\ nth 1 (nth 1 (Binary64.dW 0x1p-600 1 [[0; 0; 0]; [1; 0; 0]]) []) []
     = [nan; nan; nan]
  /\ Forall (fun x => is_zero x = false)
            (nth 0 (nth 0 (Binary64.dW 0x1p-600 1 [[0; 0; 0]; [1; 0; 0]])
                        []) [])
  /\ Binary64.hsq 0x1.87e92154ef7acp-665 = 0
  /\ nth 0 (nth 0 (Binary64.dW 0x1.87e92154ef7acp-665 1
                               [[0; 0; 0]; [1; 0; 0]]) []) []
     = [nan; nan; nan].
Proof.
  repeat split; try (vm_compute; reflexivity).
  vm_compute. repeat constructor.
Qed.

End GradientDiagonal.

(** ** Neighbour counts *)

Section CountLemmas.
Import Np.

Lemma length_filter_map {A B : Type} (P : B -> bool) (f : A -> B)
    (l : list A) :
  length (filter P (map f l)) = length (filter (fun x => P (f x)) l).
Proof.
  induction l as [|x l IH]; simpl; [reflexivity|].
  destruct (P (f x)); simpl; now rewrite IH.
Qed.

Lemma length_filter_le {A : Type} (P Q : A -> bool) (l : list A) :
  (forall x, In x l -> P x = true -> Q x = true) ->
  (length (filter P l) <= length (filter Q l))%nat.
Proof.
  induction l as [|x l IH]; intros H; simpl; [lia|].
  assert (IH' : (length (filter P l) <= length (filter Q l))%nat)
    by (apply IH; intros y Hy; apply H; now right).
  destruct (P x) eqn:EP.
  - rewrite (H x (or_introl eq_refl) EP). simpl. lia.
  - destruct (Q x); simpl; lia.
Qed.

(** Counting the entries of a list that satisfy a condition is counting the
    indices whose entry does. *)
Lemma length_filter_seq {A : Type} (P : A -> bool) (d : A) (l : list A) :
  length (filter P l)
  = length (filter (fun j => P (nth j l d)) (seq 0 (length l))).
Proof.
  induction l as [|x l IH]; [reflexivity|].
  cbn [length seq]. rewrite <- seq_shift.
  cbn [filter nth].
  destruct (P x); cbn [length]; rewrite length_filter_map; cbn [nth];
    now rewrite <- IH.
Qed.

Lemma length_count_fold (n : nat) (m : list (list bool)) :
  Forall (fun row => length row = n) m ->
  length (fold_right count_step (repeat 0%nat n) m) = n.
Proof.
  induction 1 as [|row m Hrow _ IH]; simpl.
  - apply repeat_length.
  - unfold count_step at 1.
    rewrite length_map2, length_map, IH, Hrow. apply Nat.min_id.
Qed.

Lemma nth_count_fold (n : nat) (m : list (list bool)) (j : nat) :
  Forall (fun row => length row = n) m ->
  nth j (fold_right count_step (repeat 0%nat n) m) 0%nat
  = length (filter (fun row => nth j row false) m).
Proof.
  induction 1 as [|row m Hrow Hm IH]; simpl.
  - apply nth_repeat.
  - unfold count_step at 1.
    destruct (Nat.lt_ge_cases j n) as [Hj|Hj].
    + rewrite (nth_map2 _ _ _ j 0%nat 0%nat)
        by (rewrite ?length_map, ?length_count_fold; lia || assumption).
      rewrite IH.
      rewrite (nth_map_in b2n row j false) by lia.
      destruct (nth j row false); reflexivity.
    + rewrite nth_overflow
        by (rewrite length_map2, length_map, length_count_fold, Hrow;
            [lia | assumption]).
      rewrite (nth_overflow row) by lia.
      rewrite <- IH. symmetry. apply nth_overflow.
      rewrite length_count_fold; assumption.
Qed.

(** [m.sum(axis=0)[j]] is the number of rows of [m] whose entry [j] is
    [True]. *)
Lemma nth_count_axis0 (m : list (list bool)) (j : nat) :
  Forall (fun row => length row = length (hd [] m)) m ->
  nth j (count_axis0 m) 0%nat
  = length (filter (fun row => nth j row false) m).
Proof. apply nth_count_fold. Qed.

End CountLemmas.

Section NeighbourLemmas.
Import Np Kernel.

Variable pos : list (list R).

Lemma I1_rows (h : R) :
  I1 h pos
  = map (fun p => map (fun q => in_I1 (R_entry h (sub1 p q))) pos) pos.
Proof.
  rewrite I1_unfold, kernel_dxij_unfold, map_map.
  apply map_ext; intros p. apply map_map.
Qed.

(** The notebook's count for particle [i]: the particles, [i] among them,
    whose normalised distance to [i] is below 1. *)
Lemma neighbours_filter (h : R) (i : nat) :
  (i < length pos)%nat ->
  nth i (neighbours h pos) 0%nat
  = length (filter (fun p => in_I1 (R_entry h (sub1 p (nth i pos [])))) pos).
Proof.
  intros Hi. unfold neighbours.
  rewrite nth_count_axis0.
  - rewrite I1_rows, length_filter_map.
    f_equal. apply filter_ext; intros p.
    now rewrite (nth_map_in _ pos i [] false).
  - rewrite I1_rows.
    apply Forall_forall; intros row Hrow.
    apply in_map_iff in Hrow. destruct Hrow as (p & <- & _).
    destruct pos as [|p0 pos']; simpl; now rewrite ?length_map.
Qed.

Lemma R_entry_sym (h : R) (p q : list R) :
  R_entry h (sub1 p q) = R_entry h (sub1 q p).
Proof.
  unfold R_entry. now rewrite (sub1_antisym p q), norm_opp.
Qed.

End NeighbourLemmas.

Lemma div_lt_iff (n h c : R) : 0 < h -> (n / h < c <-> n < c * h).
Proof.
  intros Hh. split; intros H.
  - replace n with (n / h * h) by (field; lra).
    now apply Rmult_lt_compat_r.
  - replace c with (c * h / h) by (field; lra).
    unfold Rdiv. apply Rmult_lt_compat_r; [|exact H].
    now apply Rinv_0_lt_compat.
Qed.

Lemma div_nonneg (n h : R) : 0 <= n -> 0 < h -> 0 <= n / h.
Proof.
  intros Hn Hh. apply Rmult_le_pos; [exact Hn|].
  left. now apply Rinv_0_lt_compat.
Qed.

(** A smaller smoothing length selects no more separation vectors. *)
Lemma in_I1_shrink (h' h : R) (v : list R) :
  0 < h' -> h' <= h ->
  Kernel.in_I1 (Kernel.R_entry h' v) = true ->
  Kernel.in_I1 (Kernel.R_entry h v) = true.
Proof.
  intros Hh' Hle H.
  apply in_I1_true in H. apply in_I1_true.
  unfold Kernel.R_entry in *.
  pose proof (Np.norm v) as n.
  destruct H as [_ H]. apply div_lt_iff in H; [|exact Hh'].
  split.
  - apply div_nonneg; [apply norm_nonneg | lra].
  - apply div_lt_iff; lra.
Qed.

Lemma support_shrink (h' h n : R) :
  0 < h' -> h' <= h -> 0 <= n ->
  Np.Rleb 0 (n / h') && Np.Rltb (n / h') 2 = true ->
  Np.Rleb 0 (n / h) && Np.Rltb (n / h) 2 = true.
Proof.
  intros Hh' Hle Hn H.
  apply andb_true_iff in H. destruct H as [_ H].
  apply Rltb_true in H. apply div_lt_iff in H; [|exact Hh'].
  apply andb_true_iff. split.
  - apply Rleb_true. apply div_nonneg; lra.
  - apply Rltb_true. apply div_lt_iff; lra.
Qed.

Lemma filter_hit {A : Type} (P : A -> bool) (l : list A) (x : A) :
  In x l -> P x = true -> (1 <= length (filter P l))%nat.
Proof.
  intros Hin HP.
  assert (H : In x (filter P l)) by (apply filter_In; now split).
  destruct (filter P l); [contradiction | simpl; lia].
Qed.

(** C2, as the notebook computes it.  For every particle i the query
    [I1.sum(axis=0)] returns the number of particles j, i itself among
    them, with 0 <= R[i,j] < 1: it counts the support of the first branch
    only and includes the self entry, so it is at least 1. *)
Theorem notebook_neighbour_query (h : R) (pos : list (list R)) (i : nat) :
  0 < h -> (i < length pos)%nat ->
  nth i (Kernel.neighbours h pos) 0%nat
  = length (filter (fun j => Kernel.in_I1
                               (nth j (nth i (Kernel.Rij h pos) []) 0))
                   (seq 0 (length pos)))
  /\ Kernel.in_I1 (nth i (nth i (Kernel.Rij h pos) []) 0) = true
  /\ (1 <= nth i (Kernel.neighbours h pos) 0%nat)%nat.
Proof.
  intros Hh Hi.
  assert (Hcount :
    nth i (Kernel.neighbours h pos) 0%nat
    = length (filter (fun j => Kernel.in_I1
                                 (nth j (nth i (Kernel.Rij h pos) []) 0))
                     (seq 0 (length pos)))).
  { rewrite neighbours_filter by exact Hi.
    rewrite (length_filter_seq _ []).
    f_equal. apply filter_ext_in; intros j Hj.
    apply in_seq in Hj.
    rewrite Rij_unfold, nth_entrywise by lia.
    now rewrite R_entry_sym. }
  assert (Hself :
    Kernel.in_I1 (nth i (nth i (Kernel.Rij h pos) []) 0) = true).
  { rewrite Rij_unfold, nth_entrywise by assumption.
    rewrite sub1_self, R_entry_zeros. apply in_I1_true. lra. }
  repeat split; try assumption.
  rewrite Hcount.
  apply (filter_hit _ _ i); [apply in_seq; lia | exact Hself].
Qed.

Lemma notebook_neighbour_query_witness :
  0 < 1 /\ (0 < 1)%nat
  /\ nth 0 (Kernel.neighbours 1 [[0; 0; 0]]) 0%nat
     = length (filter (fun j => Kernel.in_I1
                                  (nth j (nth 0 (Kernel.Rij 1 [[0; 0; 0]]) [])
                                       0))
                      (seq 0 1))
  /\ (1 <= nth 0 (Kernel.neighbours 1%R [[0; 0; 0]]%R) 0)%nat.
Proof.
  pose proof (notebook_neighbour_query 1 [[0; 0; 0]] 0
                ltac:(lra) ltac:(simpl; lia)) as H.
  destruct H as (Hc & _ & Hone).
  split; [lra|]. split; [lia|]. split; [exact Hc | exact Hone].
Defined.

Lemma count_true_from (row : list bool) (a : nat) :
  fold_left (fun acc b => (acc + Np.b2n b)%nat) row a
  = (a + length (filter (fun b => b) row))%nat.
Proof.
  revert a.
  induction row as [|b row IH]; intros a; simpl; [lia|].
  rewrite IH. destruct b; simpl; lia.
Qed.

(** [sum(I1[0])], the count the notebook shows first, is entry 0 of
    [I1.sum(axis=0)]. *)
Lemma neighbours_of_first_agrees (h : R) (pos : list (list R)) :
  (0 < length pos)%nat ->
  Kernel.neighbours_of_first h pos = nth 0 (Kernel.neighbours h pos) 0%nat.
Proof.
  intros Hpos.
  rewrite neighbours_filter by exact Hpos.
  unfold Kernel.neighbours_of_first, Np.count_true.
  rewrite count_true_from, I1_rows.
  rewrite (nth_map_in _ pos 0 [] []) by exact Hpos.
  rewrite length_filter_map. cbn [Nat.add].
  f_equal. apply filter_ext; intros p.
  now rewrite R_entry_sym.
Qed.

(** C9.  For fixed positions and smoothing lengths 0 < h' <= h, the
    neighbour count of every particle with h' is at most its count with h,
    for the count the notebook computes and for the count over the full
    support as well. *)
Theorem neighbour_count_monotone (h' h : R) (pos : list (list R)) (i : nat) :
  0 < h' -> h' <= h -> (i < length pos)%nat ->
  (nth i (Kernel.neighbours h' pos) 0 <= nth i (Kernel.neighbours h pos) 0)%nat
  /\ (Kernel.spec_neighbours h' pos i <= Kernel.spec_neighbours h pos i)%nat.
Proof.
  intros Hh' Hle Hi. split.
  - rewrite !neighbours_filter by exact Hi.
    apply length_filter_le. intros p _.
    now apply in_I1_shrink.
  - unfold Kernel.spec_neighbours.
    apply length_filter_le. intros j _ H.
    apply andb_true_iff in H. destruct H as [Hne H].
    apply andb_true_iff. split; [exact Hne|].
    eapply support_shrink; eauto. apply norm_nonneg.
Qed.

Lemma neighbour_count_monotone_witness :
  0 < 1 /\ 1 <= 2 /\ (0 < 2)%nat
  /\ (nth 0 (Kernel.neighbours 1%R [[0; 0; 0]; [1; 0; 0]]%R) 0
      <= nth 0 (Kernel.neighbours 2%R [[0; 0; 0]; [1; 0; 0]]%R) 0)%nat
  /\ (Kernel.spec_neighbours 1%R [[0; 0; 0]; [1; 0; 0]]%R 0
      <= Kernel.spec_neighbours 2%R [[0; 0; 0]; [1; 0; 0]]%R 0)%nat.
Proof.
  split; [lra|]. split; [lra|]. split; [lia|].
  apply (neighbour_count_monotone 1 2 [[0; 0; 0]; [1; 0; 0]] 0);
    [lra | lra | simpl; lia].
Defined.

(** C2 fails as stated.  Three particles on a line, 3/2 smoothing lengths
    apart: the middle one
    has both others inside the support 0 <= R < 2, yet the notebook's count
    for it is 1, the particle itself. *)
Lemma neighbour_count_differs_from_support :
  nth 1 (Kernel.neighbours 1%R [[0; 0; 0]; [3 / 2; 0; 0]; [3; 0; 0]]%R) 0%nat
    = 1%nat
  /\ Kernel.spec_neighbours 1%R [[0; 0; 0]; [3 / 2; 0; 0]; [3; 0; 0]]%R 1
     = 2%nat
  /\ nth 1 (Kernel.neighbours 1%R [[0; 0; 0]; [3 / 2; 0; 0]; [3; 0; 0]]%R)
         0%nat
     <> Kernel.spec_neighbours 1%R [[0; 0; 0]; [3 / 2; 0; 0]; [3; 0; 0]]%R 1.
Proof.
  assert (Na : Np.norm [0 - 3 / 2; 0 - 0; 0 - 0] = 3 / 2)
    by (apply norm_value; simpl; lra).
  assert (Nb : Np.norm [3 / 2 - 3 / 2; 0 - 0; 0 - 0] = 0)
    by (apply norm_value; simpl; lra).
  assert (Nc : Np.norm [3 - 3 / 2; 0 - 0; 0 - 0] = 3 / 2)
    by (apply norm_value; simpl; lra).
  assert (Nd : Np.norm [3 / 2 - 0; 0 - 0; 0 - 0] = 3 / 2)
    by (apply norm_value; simpl; lra).
  assert (Ne : Np.norm [3 / 2 - 3; 0 - 0; 0 - 0] = 3 / 2)
    by (apply norm_value; simpl; lra).
  assert (Hcode :
    nth 1 (Kernel.neighbours 1%R [[0; 0; 0]; [3 / 2; 0; 0]; [3; 0; 0]]%R)
        0%nat = 1%nat).
  { rewrite neighbours_filter by (simpl; lia).
    cbn [nth filter]. unfold Kernel.R_entry.
    cbn [Np.sub1 Np.bcast Np.map2 map combine fst snd].
    rewrite Na, Nb, Nc.
    assert (E1 : Kernel.in_I1 (3 / 2 / 1) = false)
      by (apply in_I1_false; lra).
    assert (E0 : Kernel.in_I1 (0 / 1) = true) by (apply in_I1_true; lra).
    now rewrite E1, E0. }
  assert (Hspec :
    Kernel.spec_neighbours 1%R [[0; 0; 0]; [3 / 2; 0; 0]; [3; 0; 0]]%R 1
    = 2%nat).
  { unfold Kernel.spec_neighbours.
    cbn [length seq filter nth Nat.eqb negb andb Np.map2 combine map fst snd].
    rewrite Nd, Ne.
    assert (E0 : Np.Rleb 0 (3 / 2 / 1) = true) by (apply Rleb_true; lra).
    assert (E2 : Np.Rltb (3 / 2 / 1) 2 = true) by (apply Rltb_true; lra).
    now rewrite E0, E2. }
  split; [exact Hcode|]. split; [exact Hspec|].
  rewrite Hcode, Hspec. discriminate.
Qed.

(** A single particle has no neighbour, and the notebook's count for it
    is 1. *)
Example lone_particle_count :
  Kernel.neighbours 1%R [[0; 0; 0]]%R = [1%nat]
  /\ Kernel.spec_neighbours 1%R [[0; 0; 0]]%R 0 = 0%nat.
Proof.
  split; [|reflexivity].
  unfold Kernel.neighbours. rewrite I1_rows.
  cbn [map Np.sub1 Np.bcast Np.map2 combine fst snd]. unfold Kernel.R_entry.
  replace (Np.norm [0 - 0; 0 - 0; 0 - 0]) with 0
    by (symmetry; apply norm_value; simpl; lra).
  assert (E0 : Kernel.in_I1 (0 / 1) = true) by (apply in_I1_true; lra).
  rewrite E0. reflexivity.
Qed.

(** ** The three dot products *)

Section DotLemmas.
Import Np Dot.

Lemma length_bcast_same {A B C : Type} (f : A -> B -> C)
    (la : list A) (lb : list B) :
  length la = length lb -> length (bcast f la lb) = length la.
Proof.
  intros H. rewrite bcast_same_length by exact H.
  rewrite length_map2, H. apply Nat.min_id.
Qed.

Lemma nth_bcast_same {A B C : Type} (f : A -> B -> C)
    (la : list A) (lb : list B) (i : nat) (da : A) (db : B) (dc : C) :
  length la = length lb -> (i < length la)%nat ->
  nth i (bcast f la lb) dc = f (nth i la da) (nth i lb db).
Proof.
  intros H Hi. rewrite bcast_same_length by exact H.
  apply nth_map2; lia.
Qed.

Lemma shape3_row (n m k : nat) (a : list (list (list R))) (i : nat) :
  shape3 n m k a -> (i < n)%nat -> length (nth i a []) = m.
Proof.
  intros [Hn Hrows] Hi.
  rewrite Forall_forall in Hrows.
  apply Hrows, nth_In. lia.
Qed.

Lemma shape3_vec (n m k : nat) (a : list (list (list R))) (i j : nat) :
  shape3 n m k a -> (i < n)%nat -> (j < m)%nat ->
  length (nth j (nth i a []) []) = k.
Proof.
  intros [Hn Hrows] Hi Hj.
  rewrite Forall_forall in Hrows.
  destruct (Hrows (nth i a [])) as [Hm Hvecs]; [apply nth_In; lia|].
  rewrite Forall_forall in Hvecs.
  apply Hvecs, nth_In. lia.
Qed.

Lemma hd_nth {A : Type} (l : list A) (d : A) : hd d l = nth 0 l d.
Proof. destruct l; reflexivity. Qed.

(** The sum of the products walks the indices of the contracted axis. *)
Lemma dot_indices (v w : list R) :
  length v = length w ->
  dot v w
  = sum (map (fun k => nth k v 0 * nth k w 0) (seq 0 (length v))).
Proof.
  unfold dot, map2. revert w.
  induction v as [|a v IH]; intros [|b w] H; simpl in H; try discriminate;
    [reflexivity|].
  cbn [combine map sum fold_right length seq fst snd nth].
  rewrite <- seq_shift, map_map. cbn [nth].
  f_equal. apply IH. lia.
Qed.

Section Shaped.

Variables (n : nat) (dx dv : list (list (list R))).
Hypothesis Hdx : shape3 n n 3 dx.
Hypothesis Hdv : shape3 n n 3 dv.

Lemma length_A : length (dxdvij_A dx dv) = n.
Proof.
  unfold dxdvij_A, sum_axis2, bcast3.
  rewrite length_map, length_bcast_same; [apply Hdx|].
  destruct Hdx as [-> _], Hdv as [-> _]. reflexivity.
Qed.

Lemma nth_A_row (i : nat) :
  (i < n)%nat ->
  nth i (dxdvij_A dx dv) []
  = map sum (bcast (bcast Rmult) (nth i dx []) (nth i dv [])).
Proof.
  intros Hi. unfold dxdvij_A, sum_axis2, bcast3.
  rewrite (nth_map_in _ _ i [] []).
  - f_equal. apply nth_bcast_same.
    + destruct Hdx as [-> _], Hdv as [-> _]. reflexivity.
    + destruct Hdx as [-> _]. exact Hi.
  - rewrite length_bcast_same.
    + destruct Hdx as [-> _]. exact Hi.
    + destruct Hdx as [-> _], Hdv as [-> _]. reflexivity.
Qed.

Lemma length_A_row (i : nat) :
  (i < n)%nat -> length (nth i (dxdvij_A dx dv) []) = n.
Proof.
  intros Hi. rewrite nth_A_row by exact Hi.
  rewrite length_map, length_bcast_same.
  - now apply (shape3_row n n 3).
  - now rewrite (shape3_row n n 3 dx), (shape3_row n n 3 dv).
Qed.

Lemma nth_A (i j : nat) :
  (i < n)%nat -> (j < n)%nat ->
  nth j (nth i (dxdvij_A dx dv) []) 0
  = dot (nth j (nth i dx []) []) (nth j (nth i dv []) []).
Proof.
  intros Hi Hj. rewrite nth_A_row by exact Hi.
  assert (Hrows : length (nth i dx []) = length (nth i dv []))
    by now rewrite (shape3_row n n 3 dx), (shape3_row n n 3 dv).
  assert (Hrow : length (nth i dx []) = n) by now apply (shape3_row n n 3).
  rewrite (nth_map_in _ _ j [] 0)
    by (rewrite length_bcast_same; [lia | exact Hrows]).
  rewrite (nth_bcast_same _ _ _ j [] [] []) by (exact Hrows || lia).
  unfold dot. f_equal. apply bcast_same_length.
  now rewrite (shape3_vec n n 3 dx), (shape3_vec n n 3 dv).
Qed.

Lemma length_B : length (dxdvij_B dx dv) = n.
Proof.
  unfold dxdvij_B, einsum_ijk_ijk_ij.
  rewrite length_map, length_seq. apply Hdx.
Qed.

Lemma dims_B :
  (0 < n)%nat ->
  length (hd [] dx) = n /\ length (hd [] (hd [] dx)) = 3%nat.
Proof.
  intros Hn. rewrite !hd_nth. split.
  - now apply (shape3_row n n 3).
  - now apply (shape3_vec n n 3).
Qed.

Lemma nth_B_row (i : nat) :
  (i < n)%nat ->
  nth i (dxdvij_B dx dv) []
  = map (fun j =>
           sum (map (fun k => nth k (nth j (nth i dx []) []) 0
                              * nth k (nth j (nth i dv []) []) 0)
                    (seq 0 3)))
        (seq 0 n).
Proof.
  intros Hi. unfold dxdvij_B, einsum_ijk_ijk_ij.
  destruct dims_B as [-> ->]; [lia|].
  destruct Hdx as [Hlen _]. rewrite Hlen.
  rewrite (nth_map_in _ _ i 0%nat []) by (rewrite length_seq; exact Hi).
  now rewrite seq_nth by exact Hi.
Qed.

Lemma nth_B (i j : nat) :
  (i < n)%nat -> (j < n)%nat ->
  nth j (nth i (dxdvij_B dx dv) []) 0
  = dot (nth j (nth i dx []) []) (nth j (nth i dv []) []).
Proof.
  intros Hi Hj. rewrite nth_B_row by exact Hi.
  rewrite (nth_map_in _ _ j 0%nat 0) by (rewrite length_seq; exact Hj).
  rewrite seq_nth by exact Hj. cbn [Nat.add].
  rewrite dot_indices
    by now rewrite (shape3_vec n n 3 dx), (shape3_vec n n 3 dv).
  now rewrite (shape3_vec n n 3 dx).
Qed.

Lemma A_eq_B : dxdvij_A dx dv = dxdvij_B dx dv.
Proof.
  apply (nth_ext _ _ [] []); [now rewrite length_A, length_B|].
  rewrite length_A. intros i Hi.
  apply (nth_ext _ _ 0 0).
  - rewrite length_A_row, nth_B_row by exact Hi.
    now rewrite length_map, length_seq.
  - rewrite length_A_row by exact Hi. intros j Hj.
    now rewrite nth_A, nth_B.
Qed.

End Shaped.

End DotLemmas.

Section MatmulLemmas.
Import Np Dot.

Lemma column_combination (v w : list R) :
  fold_right (map2 Rplus) [0]
    (map2 (fun c brow => map (Rmult c) brow) v (newaxis1 w))
  = [dot v w].
Proof.
  unfold dot, newaxis1, map2. revert w.
  induction v as [|a v IH]; intros [|b w]; try reflexivity.
  cbn [map combine fold_right fst snd sum].
  rewrite IH. reflexivity.
Qed.

(** A row of length 3 times a column of length 3 is the 1 x 1 matrix of
    their dot product. *)
Lemma matmul_row_column (v w : list R) :
  length w = 3%nat -> matmul [v] (newaxis1 w) = [[dot v w]].
Proof.
  intros Hw.
  destruct w as [|b w]; [discriminate|].
  unfold matmul. cbn [map hd newaxis1 length repeat].
  f_equal. apply (column_combination v (b :: w)).
Qed.

Lemma squeeze_Array (l : list ndarray) :
  length l <> 1%nat -> squeeze (Array l) = Array (map squeeze l).
Proof. destruct l as [|x [|y l]]; simpl; intros H; congruence. Qed.

Lemma squeeze_cell (d : R) : squeeze (of_array2 [[d]]) = Scalar d.
Proof. reflexivity. Qed.

(** Squeezing an array of shape (n, m, 1, 1) with n and m other than 1
    leaves the array of shape (n, m). *)
Lemma squeeze_cells (a : list (list R)) :
  length a <> 1%nat -> Forall (fun row => length row <> 1%nat) a ->
  squeeze (of_array4 (map (map (fun d => [[d]])) a)) = of_array2 a.
Proof.
  intros Hlen Hrows.
  unfold of_array4, of_array2 at 1.
  rewrite squeeze_Array by now rewrite !length_map.
  f_equal. rewrite !map_map.
  apply map_ext_in; intros row Hrow.
  rewrite Forall_forall in Hrows. specialize (Hrows row Hrow).
  unfold of_array3, of_array1.
  rewrite squeeze_Array by now rewrite !length_map.
  f_equal. rewrite !map_map.
  apply map_ext; intros d. reflexivity.
Qed.

Section Shaped.

Variables (n : nat) (dx dv : list (list (list R))).
Hypothesis Hdx : shape3 n n 3 dx.
Hypothesis Hdv : shape3 n n 3 dv.

(** The batched product, before the squeeze, has shape (n, n, 1, 1) and
    holds the dot products. *)
Lemma matmul_cells :
  bcast2 matmul (dxij_row dx) (dvij_col dv)
  = map (map (fun d => [[d]])) (dxdvij_A dx dv).
Proof.
  unfold bcast2, dxij_row, dvij_col.
  assert (Hn : length dx = n) by apply Hdx.
  assert (Hn' : length dv = n) by apply Hdv.
  apply (nth_ext _ _ [] []).
  - rewrite length_bcast_same by now rewrite !length_map, Hn, Hn'.
    now rewrite !length_map, Hn, (length_A n dx dv).
  - rewrite length_bcast_same by now rewrite !length_map, Hn, Hn'.
    rewrite length_map, Hn. intros i Hi.
    assert (Hr : length (nth i dx []) = n) by now apply (shape3_row n n 3).
    assert (Hr' : length (nth i dv []) = n) by now apply (shape3_row n n 3).
    rewrite (nth_bcast_same _ _ _ i [] [] [])
      by (rewrite !length_map; lia).
    rewrite (nth_map_in newaxis1 dx i [] []) by lia.
    rewrite (nth_map_in (map newaxis1) dv i [] []) by lia.
    rewrite (nth_map_in _ (dxdvij_A dx dv) i [] [])
      by now rewrite (length_A n dx dv).
    apply (nth_ext _ _ [] []).
    + rewrite length_bcast_same by (unfold newaxis1; rewrite !length_map; lia).
      unfold newaxis1. now rewrite !length_map, (length_A_row n dx dv), Hr.
    + rewrite length_bcast_same by (unfold newaxis1; rewrite !length_map; lia).
      unfold newaxis1 at 1. rewrite length_map, Hr. intros j Hj.
      rewrite (nth_bcast_same _ _ _ j [] [] [])
        by (unfold newaxis1; rewrite !length_map; lia).
      unfold newaxis1 at 1.
      rewrite (nth_map_in (fun x => [x]) (nth i dx []) j [] []) by lia.
      rewrite (nth_map_in newaxis1 (nth i dv []) j [] []) by lia.
      rewrite (nth_map_in _ (nth i (dxdvij_A dx dv) []) j 0 [])
        by now rewrite (length_A_row n dx dv).
      rewrite (nth_A n dx dv) by assumption.
      apply matmul_row_column.
      now apply (shape3_vec n n 3 dv).
Qed.

Lemma C_many :
  n <> 1%nat -> dxdvij_C dx dv = of_array2 (dxdvij_A dx dv).
Proof.
  intros Hn. unfold dxdvij_C. rewrite matmul_cells.
  apply squeeze_cells.
  - now rewrite (length_A n dx dv).
  - apply Forall_forall; intros row Hrow.
    apply (In_nth _ _ []) in Hrow. destruct Hrow as (i & Hi & <-).
    rewrite (length_A n dx dv) in Hi by assumption.
    rewrite (length_A_row n dx dv) by assumption.
    exact Hn.
Qed.

Lemma C_one :
  n = 1%nat ->
  dxdvij_C dx dv = Scalar (nth 0 (nth 0 (dxdvij_A dx dv) []) 0).
Proof.
  intros Hn. unfold dxdvij_C. rewrite matmul_cells.
  pose proof (length_A n dx dv Hdx Hdv) as HA.
  pose proof (length_A_row n dx dv Hdx Hdv 0) as HA0.
  destruct (dxdvij_A dx dv) as [|row [|row' a]];
    simpl in HA; try lia.
  simpl in HA0.
  destruct row as [|d [|d' row]]; simpl in HA0; try lia.
  reflexivity.
Qed.

End Shaped.

End MatmulLemmas.

(** The three formulations in exact arithmetic, where the order of the
    additions does not matter.  For arrays dx and dv of shape (N, N, 3) the
    elementwise product summed over the last axis and the einsum
    contraction are the same N x N array, whose entry (i, j) is the dot
    product of dx[i,j] and dv[i,j]; for N other than 1 the batched matrix
    product with squeeze is that same N x N array, and for N = 1 it is the
    0-dimensional array holding the single dot product. *)
Lemma dot_product_formulations (n : nat) (dx dv : list (list (list R))) :
  Dot.shape3 n n 3 dx -> Dot.shape3 n n 3 dv ->
  Dot.dxdvij_A dx dv = Dot.dxdvij_B dx dv
  /\ (forall i j, (i < n)%nat -> (j < n)%nat ->
        nth j (nth i (Dot.dxdvij_A dx dv) []) 0
        = Dot.dot (nth j (nth i dx []) []) (nth j (nth i dv []) []))
  /\ (n <> 1%nat -> Dot.dxdvij_C dx dv = Dot.of_array2 (Dot.dxdvij_A dx dv))
  /\ (n = 1%nat ->
      Dot.dxdvij_C dx dv
      = Dot.Scalar (nth 0 (nth 0 (Dot.dxdvij_A dx dv) []) 0)).
Proof.
  intros Hdx Hdv. repeat split.
  - now apply (A_eq_B n).
  - intros i j Hi Hj. now apply (nth_A n).
  - now apply C_many.
  - now apply C_one.
Qed.

Lemma dot_product_formulations_witness :
  Dot.shape3 2 2 3 [[[1; 0; 0]; [0; 1; 0]]; [[1; 2; 3]; [4; 5; 6]]]
  /\ Dot.shape3 2 2 3 [[[1; 1; 1]; [2; 0; 2]]; [[3; 2; 1]; [0; 0; 1]]]
  /\ Dot.dxdvij_A [[[1; 0; 0]; [0; 1; 0]]; [[1; 2; 3]; [4; 5; 6]]]
                  [[[1; 1; 1]; [2; 0; 2]]; [[3; 2; 1]; [0; 0; 1]]]
     = Dot.dxdvij_B [[[1; 0; 0]; [0; 1; 0]]; [[1; 2; 3]; [4; 5; 6]]]
                    [[[1; 1; 1]; [2; 0; 2]]; [[3; 2; 1]; [0; 0; 1]]]
  /\ Dot.dxdvij_C [[[1; 0; 0]; [0; 1; 0]]; [[1; 2; 3]; [4; 5; 6]]]
                  [[[1; 1; 1]; [2; 0; 2]]; [[3; 2; 1]; [0; 0; 1]]]
     = Dot.of_array2
         (Dot.dxdvij_A [[[1; 0; 0]; [0; 1; 0]]; [[1; 2; 3]; [4; 5; 6]]]
                       [[[1; 1; 1]; [2; 0; 2]]; [[3; 2; 1]; [0; 0; 1]]]).
Proof.
  assert (Hx : Dot.shape3 2 2 3
                 [[[1; 0; 0]; [0; 1; 0]]; [[1; 2; 3]; [4; 5; 6]]])
    by (split; [reflexivity | repeat constructor]).
  assert (Hv : Dot.shape3 2 2 3
                 [[[1; 1; 1]; [2; 0; 2]]; [[3; 2; 1]; [0; 0; 1]]])
    by (split; [reflexivity | repeat constructor]).
  destruct (dot_product_formulations 2 _ _ Hx Hv) as (HAB & _ & HC & _).
  split; [exact Hx|]. split; [exact Hv|]. split; [exact HAB|].
  apply HC. discriminate.
Defined.

(** C3 at a failing input.  dx = [[[1, 2, 3]]] and dv = [[[4, 5, 6]]], of
    shape (1, 1, 3); every product and sum below is exact in binary64 as
    well.  The first two formulations return the 1 x 1 array [[32]].  The
    third returns the 0-dimensional array 32: [np.squeeze] removes every
    axis of length one, the two axes of the pairs with them, so its result
    is not the N x N array of the claim, and the lookup with two indices
    that the other two answer with 32 fails on it. *)
Theorem squeeze_drops_single_pair :
  Dot.shape3 1 1 3 [[[1; 2; 3]]]
  /\ Dot.shape3 1 1 3 [[[4; 5; 6]]]
  /\ Dot.dxdvij_A [[[1; 2; 3]]] [[[4; 5; 6]]] = [[32]]
  /\ Dot.dxdvij_B [[[1; 2; 3]]] [[[4; 5; 6]]] = [[32]]
  /\ Dot.dxdvij_C [[[1; 2; 3]]] [[[4; 5; 6]]] = Dot.Scalar 32
  /\ Dot.dxdvij_C [[[1; 2; 3]]] [[[4; 5; 6]]]
     <> Dot.of_array2 (Dot.dxdvij_A [[[1; 2; 3]]] [[[4; 5; 6]]])
  /\ Dot.get2 (Dot.dxdvij_A [[[1; 2; 3]]] [[[4; 5; 6]]]) 0 0 = Some 32
  /\ Dot.get2 (Dot.dxdvij_B [[[1; 2; 3]]] [[[4; 5; 6]]]) 0 0 = Some 32
  /\ Dot.nd_get2 (Dot.dxdvij_C [[[1; 2; 3]]] [[[4; 5; 6]]]) 0 0 = None.
Proof.
  assert (HA : Dot.dxdvij_A [[[1; 2; 3]]] [[[4; 5; 6]]] = [[32]])
    by (cbn; do 2 f_equal; lra).
  assert (HB : Dot.dxdvij_B [[[1; 2; 3]]] [[[4; 5; 6]]] = [[32]])
    by (cbn; do 2 f_equal; lra).
  assert (HC : Dot.dxdvij_C [[[1; 2; 3]]] [[[4; 5; 6]]] = Dot.Scalar 32)
    by (cbn; f_equal; lra).
  split; [split; [reflexivity | repeat constructor]|].
  split; [split; [reflexivity | repeat constructor]|].
  split; [exact HA|]. split; [exact HB|]. split; [exact HC|].
  split; [rewrite HC, HA; discriminate|].
  rewrite HA, HB, HC. repeat split.
Qed.

(** ** The force derivative, entry by entry *)

Section GravityEntries.
Import Np Float Gravity.

Lemma map2_maps {A B C A' B' : Type} (f : A -> B -> C)
    (u : A' -> A) (v : B' -> B) (la : list A') (lb : list B') :
  map2 f (map u la) (map v lb) = map2 (fun a b => f (u a) (v b)) la lb.
Proof.
  unfold map2. revert lb.
  induction la as [|a la IH]; intros [|b lb]; simpl; try reflexivity.
  now rewrite IH.
Qed.

Lemma map2_map2_map {A B C D E : Type} (g : C -> D -> E) (f : A -> B -> C)
    (v : B -> D) (la : list A) (lb : list B) :
  map2 g (map2 f la lb) (map v lb) = map2 (fun a b => g (f a b) (v b)) la lb.
Proof.
  unfold map2. revert lb.
  induction la as [|a la IH]; intros [|b lb]; simpl; try reflexivity.
  now rewrite IH.
Qed.

Variable G : R.
Variable mass0 : list R.
Variables pos0 vel : list (list R).

Hypothesis Hmass : length mass0 = length (pos pos0 vel).

Lemma numerator_unfold :
  bcast3 Rmult (map (map (map (Rmult G))) (mass mass0)) (dxij pos0 vel)
  = map (fun p =>
           map2 (fun m q => map (Rmult (G * m)) (sub1 p q))
                mass0 (pos pos0 vel))
        (pos pos0 vel).
Proof.
  unfold bcast3, mass, newaxis0, newaxis1.
  rewrite gravity_dxij_unfold.
  cbn [map]. rewrite bcast_singleton_l, !map_map.
  apply map_ext; intros p.
  rewrite bcast_same_length by now rewrite !length_map.
  rewrite map2_maps.
  reflexivity.
Qed.

Lemma denominator_unfold :
  newaxis_last2 (norm_axis2 (dxij pos0 vel))
  = map (fun p => map (fun q => [norm (sub1 p q)]) (pos pos0 vel))
        (pos pos0 vel).
Proof.
  unfold newaxis_last2, norm_axis2, newaxis1.
  rewrite gravity_dxij_unfold, !map_map.
  apply map_ext; intros p. now rewrite !map_map.
Qed.

Lemma acc_matrix_unfold :
  acc_matrix G mass0 pos0 vel
  = map (fun p => map2 (fun m q => acc_entry G m p q) mass0 (pos pos0 vel))
        (pos pos0 vel).
Proof.
  unfold acc_matrix.
  rewrite numerator_unfold, denominator_unfold.
  unfold bcast3. rewrite bcast_map_same.
  apply map_ext; intros p.
  rewrite bcast_same_length
    by (rewrite length_map2, length_map, Hmass; apply Nat.min_id).
  rewrite map2_map2_map.
  unfold map2. apply map_ext; intros [m q]. cbn [fst snd].
  rewrite bcast_singleton_r, map_map.
  reflexivity.
Qed.

Lemma nth_acc_matrix (i j : nat) :
  (i < length (pos pos0 vel))%nat -> (j < length (pos pos0 vel))%nat ->
  nth j (nth i (acc_matrix G mass0 pos0 vel) []) []
  = acc_entry G (nth j mass0 0) (nth i (pos pos0 vel) [])
              (nth j (pos pos0 vel) []).
Proof.
  intros Hi Hj. rewrite acc_matrix_unfold.
  rewrite (nth_map_in _ _ i [] []) by exact Hi.
  rewrite (nth_map2 _ mass0 (pos pos0 vel) j 0 [] []) by lia.
  reflexivity.
Qed.

End GravityEntries.

Section GravityFacts.
Import Np Float Gravity.

Lemma fdiv_nan (x y : R) : x = 0 -> y = 0 -> fdiv x y = NaN.
Proof.
  intros Hx Hy. unfold fdiv.
  destruct (Req_dec_T y 0); [|contradiction].
  destruct (Req_dec_T x 0); [reflexivity | contradiction].
Qed.

Lemma fdiv_fin (x y : R) : y <> 0 -> fdiv x y = Fin (x / y).
Proof.
  intros Hy. unfold fdiv.
  destruct (Req_dec_T y 0); [contradiction | reflexivity].
Qed.

(** A pair of coincident rows gives not-a-number in every component. *)
Lemma acc_entry_coincident (G m : R) (p : list R) :
  acc_entry G m p p = repeat NaN (length p).
Proof.
  unfold acc_entry. rewrite sub1_self, norm_zeros, map_repeat.
  f_equal. apply fdiv_nan; [ring | reflexivity].
Qed.

(** A pair of rows at non-zero distance gives finite components, the
    numerator over the first power of the distance. *)
Lemma acc_entry_apart (G m : R) (p q : list R) :
  norm (sub1 p q) <> 0 ->
  acc_entry G m p q
  = map (fun c => Fin (G * m * c / norm (sub1 p q))) (sub1 p q).
Proof.
  intros H. unfold acc_entry.
  apply map_ext; intros c. now apply fdiv_fin.
Qed.

Lemma fadd_zero_l (a : fval) : fadd (Fin 0) a = a.
Proof. destruct a; simpl; try reflexivity. f_equal. lra. Qed.

(** Adding a vector of zeros to a partial sum of the same length leaves it
    as it is. *)
Lemma zero_term_neutral (s : list fval) :
  map2 fadd (repeat (Fin 0) (length s)) s = s.
Proof.
  unfold map2.
  induction s as [|a s IH]; [reflexivity|].
  cbn [length repeat combine map fst snd].
  now rewrite IH, fadd_zero_l.
Qed.

(** With three coordinates per row, [S[:, 3:]] is the velocity block. *)
Lemma pos_is_velocity (pos0 vel : list (list R)) :
  Forall (fun p => length p = 3%nat) pos0 ->
  length pos0 = length vel ->
  pos pos0 vel = vel.
Proof.
  unfold pos, S, cols_from, hstack, map2.
  rewrite map_map.
  intros Hshape. revert vel.
  induction Hshape as [|p pos0 Hp _ IH]; intros [|v vel] Hlen;
    simpl in *; try discriminate; [reflexivity|].
  rewrite IH by lia. f_equal.
  destruct p as [|a [|b [|c [|d p]]]]; simpl in Hp; try discriminate.
  reflexivity.
Qed.

End GravityFacts.

Section Accumulation.
Import Np Float Gravity.

Lemma nan_to_zero_entry (G m : R) (p q : list R) :
  map nan_to_zero (acc_entry G m p q) = map Fin (acc_term G m p q).
Proof.
  unfold acc_entry, acc_term.
  destruct (Req_dec_T (norm (sub1 p q)) 0) as [Hz|Hnz].
  - rewrite Hz.
    rewrite (norm_zero_inv _ Hz), !map_repeat.
    f_equal. rewrite fdiv_nan; [reflexivity | ring | reflexivity].
  - rewrite !map_map. apply map_ext; intros c.
    now rewrite fdiv_fin.
Qed.

Lemma map2_as_map {A B C : Type} (f : A -> B -> C)
    (la : list A) (lb : list B) :
  map2 f la lb = map (fun p => f (fst p) (snd p)) (combine la lb).
Proof. reflexivity. Qed.

Lemma fadd_fin (a b : list R) :
  map2 fadd (map Fin a) (map Fin b) = map Fin (map2 Rplus a b).
Proof.
  rewrite map2_maps. unfold map2. rewrite map_map. reflexivity.
Qed.

(** Once not-a-number entries count as zero, the sum along the axis is a
    sum of real vectors. *)
Lemma nansum_fin {X : Type} (E : X -> list fval) (T : X -> list R)
    (z : list R) (l : list X) :
  (forall x, map nan_to_zero (E x) = map Fin (T x)) ->
  fold_right (fun v s => map2 fadd (map nan_to_zero v) s) (map Fin z)
             (map E l)
  = map Fin (fold_right (map2 Rplus) z (map T l)).
Proof.
  intros H.
  induction l as [|x l IH]; simpl; [reflexivity|].
  now rewrite IH, H, fadd_fin.
Qed.

(** Under the sum of [np.nansum], entries that are not-a-number throughout
    may be replaced by zeros. *)
Lemma nansum_without (p : list R) (qs : list (list R))
    (es : list (list fval)) (z : list fval) :
  length qs = length es ->
  (forall j, (j < length es)%nat -> nth j qs [] = p ->
             Forall (fun a => a = NaN) (nth j es [])) ->
  fold_right (fun v s => map2 fadd (map nan_to_zero v) s) z
             (without_coincident p qs es)
  = fold_right (fun v s => map2 fadd (map nan_to_zero v) s) z es.
Proof.
  unfold without_coincident, map2 at 2.
  revert es.
  induction qs as [|q qs IH]; intros [|e es] Hlen Hnan;
    simpl in Hlen; try discriminate; [reflexivity|].
  cbn [combine map fst snd fold_right].
  rewrite IH;
    [| lia | intros j Hj; apply (Hnan (Datatypes.S j)); simpl; lia].
  destruct (list_eq_dec Req_dec_T p q) as [Hpq|Hpq]; [|reflexivity].
  assert (He : Forall (fun a => a = NaN) e)
    by (apply (Hnan 0%nat); [simpl; lia | now symmetry]).
  replace (map nan_to_zero (map (fun _ => Fin 0) e))
    with (map nan_to_zero e); [reflexivity|].
  rewrite map_map.
  clear - He. induction He as [|a e Ha _ IHe]; [reflexivity|].
  subst a. cbn [map nan_to_zero]. now rewrite IHe.
Qed.

Lemma hd_without (p : list R) (qs : list (list R)) (es : list (list fval)) :
  length qs = length es ->
  length (hd [] (without_coincident p qs es)) = length (hd [] es).
Proof.
  unfold without_coincident, map2.
  destruct qs as [|q qs], es as [|e es]; simpl; try discriminate;
    [reflexivity|].
  intros _. destruct (list_eq_dec Req_dec_T p q); [apply length_map|].
  reflexivity.
Qed.

Variable G : R.
Variable mass0 : list R.
Variables pos0 vel : list (list R).
Variable k : nat.

Hypothesis Hmass : length mass0 = length (pos pos0 vel).

Lemma length_acc_matrix_row (i : nat) :
  (i < length (pos pos0 vel))%nat ->
  length (nth i (acc_matrix G mass0 pos0 vel) []) = length (pos pos0 vel).
Proof.
  intros Hi. rewrite acc_matrix_unfold by exact Hmass.
  rewrite (nth_map_in _ _ i [] []) by exact Hi.
  rewrite length_map2, Hmass. apply Nat.min_id.
Qed.

(** Row [i] of the acceleration is minus the sum that [np.nansum] forms of
    row [i] of [acc_matrix], and that sum is the same with the coincident
    pairs of [i] left out. *)
Lemma acc_without_coincident (i : nat) :
  (i < length (pos pos0 vel))%nat ->
  nth i (acc G mass0 pos0 vel) []
  = map fneg
      (nth 0 (nansum_axis1
                [without_coincident (nth i (pos pos0 vel) []) (pos pos0 vel)
                   (nth i (acc_matrix G mass0 pos0 vel) [])]) []).
Proof.
  intros Hi.
  assert (Hrow := length_acc_matrix_row i Hi).
  unfold acc.
  rewrite (nth_map_in _ _ i [] [])
    by (unfold nansum_axis1; rewrite length_map, acc_matrix_unfold,
          length_map by exact Hmass; exact Hi).
  f_equal. unfold nansum_axis1.
  rewrite (nth_map_in _ _ i [] [])
    by (rewrite acc_matrix_unfold, length_map by exact Hmass; exact Hi).
  cbn [map nth].
  rewrite hd_without by now rewrite Hrow.
  symmetry. apply nansum_without; [now rewrite Hrow|].
  intros j Hj Heq. rewrite Hrow in Hj.
  rewrite nth_acc_matrix by assumption.
  rewrite Heq, acc_entry_coincident.
  apply Forall_forall; intros a Ha. now apply repeat_spec in Ha.
Qed.

Hypothesis Hshape : Forall (fun p => length p = k) (pos pos0 vel).

Lemma length_sub1 (p q : list R) :
  length p = length q -> length (sub1 p q) = length p.
Proof. apply length_bcast_same. Qed.

Lemma length_first_entry (i : nat) :
  (i < length (pos pos0 vel))%nat ->
  length (hd [] (map2 (fun m q => acc_entry G m (nth i (pos pos0 vel) []) q)
                      mass0 (pos pos0 vel)))
  = k.
Proof.
  intros Hi.
  rewrite Forall_forall in Hshape.
  assert (Hp : length (nth i (pos pos0 vel) []) = k)
    by (apply Hshape, nth_In; exact Hi).
  destruct mass0 as [|m ms], (pos pos0 vel) as [|q qs] eqn:E;
    simpl in Hmass, Hi; try lia.
  cbn [map2 combine map hd fst snd]. unfold acc_entry.
  rewrite length_map, length_sub1; [exact Hp|].
  rewrite Hp. symmetry. apply Hshape. now left.
Qed.

(** What the cells compute for particle [i]: minus the sum, over the
    particles [j] whose row of [pos] differs from that of [i], of
    [G * mass[j] * (pos[i] - pos[j]) / ||pos[i] - pos[j]||], with [pos] the
    array [S[:, 3:]]. *)
Lemma acc_row (i : nat) :
  (i < length (pos pos0 vel))%nat ->
  nth i (acc G mass0 pos0 vel) []
  = map Fin
      (map Ropp
         (fold_right (map2 Rplus) (repeat 0 k)
            (map2 (fun m q => acc_term G m (nth i (pos pos0 vel) []) q)
                  mass0 (pos pos0 vel)))).
Proof.
  intros Hi. unfold acc, nansum_axis1.
  rewrite acc_matrix_unfold by exact Hmass.
  rewrite !map_map.
  rewrite (nth_map_in _ _ i [] []) by exact Hi.
  rewrite length_first_entry by exact Hi.
  replace (repeat (Fin 0) k) with (map Fin (repeat 0 k))
    by apply map_repeat.
  rewrite (map2_as_map
             (fun m q => acc_entry G m (nth i (pos pos0 vel) []) q)).
  rewrite (map2_as_map
             (fun m q => acc_term G m (nth i (pos pos0 vel) []) q)).
  rewrite (nansum_fin
             (fun mq => acc_entry G (fst mq) (nth i (pos pos0 vel) []) (snd mq))
             (fun mq => acc_term G (fst mq) (nth i (pos pos0 vel) []) (snd mq)))
    by (intros mq; apply nan_to_zero_entry).
  now rewrite map_map.
Qed.

End Accumulation.

(** ** The self term and coincident pairs under [np.nansum] *)

(** Evaluation of the cells on explicit arrays. *)
Ltac unfold_cells :=
  unfold Gravity.dS, Gravity.dS_first, Gravity.dS_zeros, Gravity.acc,
    Gravity.acc_matrix, Gravity.dxij, Gravity.xi, Gravity.xj, Gravity.mass,
    Gravity.pos, Gravity.S;
  cbn [Np.bcast3 Np.bcast Np.map2 map combine fst snd Np.newaxis0
       Np.newaxis1 Np.newaxis_last2 Np.norm_axis2 Np.hstack Np.cols_from
       Np.set_cols_upto Np.set_cols_from firstn skipn app
       Float.nansum_axis1 fold_right hd length repeat nth].

Ltac norm_to y :=
  match goal with
  | |- context [Np.norm ?v] =>
      rewrite (norm_value v y) by (cbn [map Np.sum fold_right]; lra)
  end.

Ltac eval_fdiv :=
  repeat match goal with
         | |- context [Float.fdiv ?x ?y] =>
             first [ rewrite (fdiv_nan x y) by lra
                   | rewrite (fdiv_fin x y) by lra ]
         end;
  cbn [Float.nan_to_zero Float.fadd Float.fneg].

Ltac fin_eq := repeat (f_equal; try lra).

(** C6, as the notebook computes it.  The self term of every particle is
    not-a-number in every component and [np.nansum] counts it as zero, so
    it contributes exactly nothing; the same holds, without any error, for
    every pair of distinct particles whose rows of [pos] coincide: the
    discard masks the degenerate pair as well.  For the acceleration itself:
    row i of [-np.nansum(acc_matrix, axis=1)] is what it would be with the
    self pair and every coincident pair of i left out of the sum. *)
Theorem coincident_pairs_discarded (G : R) (mass0 : list R)
    (pos0 vel : list (list R)) (i j : nat) :
  length mass0 = length (Gravity.pos pos0 vel) ->
  (i < length (Gravity.pos pos0 vel))%nat ->
  (j < length (Gravity.pos pos0 vel))%nat ->
  nth i (Gravity.pos pos0 vel) [] = nth j (Gravity.pos pos0 vel) [] ->
  nth i (nth i (Gravity.acc_matrix G mass0 pos0 vel) []) []
    = repeat Float.NaN (length (nth i (Gravity.pos pos0 vel) []))
  /\ nth j (nth i (Gravity.acc_matrix G mass0 pos0 vel) []) []
     = repeat Float.NaN (length (nth i (Gravity.pos pos0 vel) []))
  /\ map Float.nan_to_zero
         (nth j (nth i (Gravity.acc_matrix G mass0 pos0 vel) []) [])
     = repeat (Float.Fin 0) (length (nth i (Gravity.pos pos0 vel) []))
  /\ (forall s : list Float.fval,
        length s = length (nth i (Gravity.pos pos0 vel) []) ->
        Np.map2 Float.fadd
          (map Float.nan_to_zero
               (nth j (nth i (Gravity.acc_matrix G mass0 pos0 vel) []) []))
          s
        = s)
  /\ nth i (Gravity.acc G mass0 pos0 vel) []
     = map Float.fneg
         (nth 0 (Float.nansum_axis1
                   [Gravity.without_coincident
                      (nth i (Gravity.pos pos0 vel) [])
                      (Gravity.pos pos0 vel)
                      (nth i (Gravity.acc_matrix G mass0 pos0 vel) [])]) [])
  /\ nth i (Gravity.without_coincident
              (nth i (Gravity.pos pos0 vel) []) (Gravity.pos pos0 vel)
              (nth i (Gravity.acc_matrix G mass0 pos0 vel) [])) []
     = repeat (Float.Fin 0) (length (nth i (Gravity.pos pos0 vel) []))
  /\ nth j (Gravity.without_coincident
              (nth i (Gravity.pos pos0 vel) []) (Gravity.pos pos0 vel)
              (nth i (Gravity.acc_matrix G mass0 pos0 vel) [])) []
     = repeat (Float.Fin 0) (length (nth i (Gravity.pos pos0 vel) [])).
Proof.
  intros Hmass Hi Hj Heq.
  assert (Hself :
    nth i (nth i (Gravity.acc_matrix G mass0 pos0 vel) []) []
    = repeat Float.NaN (length (nth i (Gravity.pos pos0 vel) []))).
  { rewrite nth_acc_matrix by assumption. apply acc_entry_coincident. }
  assert (Hpair :
    nth j (nth i (Gravity.acc_matrix G mass0 pos0 vel) []) []
    = repeat Float.NaN (length (nth i (Gravity.pos pos0 vel) []))).
  { rewrite nth_acc_matrix by assumption.
    rewrite <- Heq. apply acc_entry_coincident. }
  assert (Hout : forall l, (l < length (Gravity.pos pos0 vel))%nat ->
    nth i (Gravity.pos pos0 vel) [] = nth l (Gravity.pos pos0 vel) [] ->
    nth l (nth i (Gravity.acc_matrix G mass0 pos0 vel) []) []
    = repeat Float.NaN (length (nth i (Gravity.pos pos0 vel) [])) ->
    nth l (Gravity.without_coincident
             (nth i (Gravity.pos pos0 vel) []) (Gravity.pos pos0 vel)
             (nth i (Gravity.acc_matrix G mass0 pos0 vel) [])) []
    = repeat (Float.Fin 0) (length (nth i (Gravity.pos pos0 vel) []))).
  { intros l Hl Hil Hnan. unfold Gravity.without_coincident.
    rewrite (nth_map2 _ _ _ l [] [] [])
      by (rewrite ?length_acc_matrix_row; assumption).
    destruct (list_eq_dec Req_dec_T _ _) as [_|Hne]; [|contradiction].
    now rewrite Hnan, map_repeat. }
  split; [exact Hself|]. split; [exact Hpair|].
  split; [rewrite Hpair, map_repeat; reflexivity|].
  split.
  { intros s Hs. rewrite Hpair, map_repeat. cbn [Float.nan_to_zero].
    rewrite <- Hs. apply zero_term_neutral. }
  split; [now apply acc_without_coincident|].
  split; [now apply Hout | now apply Hout].
Qed.

Lemma coincident_pairs_discarded_witness :
  length [1; 2; 5]
    = length (Gravity.pos [[0; 0; 0]; [0; 0; 0]; [1; 0; 0]]
                          [[0; 0; 0]; [0; 0; 0]; [1; 0; 0]])
  /\ nth 1 (nth 0 (Gravity.acc_matrix 1 [1; 2; 5]
                     [[0; 0; 0]; [0; 0; 0]; [1; 0; 0]]
                     [[0; 0; 0]; [0; 0; 0]; [1; 0; 0]]) []) []
     = [Float.NaN; Float.NaN; Float.NaN]
  /\ map Float.nan_to_zero
         (nth 1 (nth 0 (Gravity.acc_matrix 1 [1; 2; 5]
                          [[0; 0; 0]; [0; 0; 0]; [1; 0; 0]]
                          [[0; 0; 0]; [0; 0; 0]; [1; 0; 0]]) []) [])
     = [Float.Fin 0; Float.Fin 0; Float.Fin 0]
  /\ nth 0 (Gravity.acc 1 [1; 2; 5]
              [[0; 0; 0]; [0; 0; 0]; [1; 0; 0]]
              [[0; 0; 0]; [0; 0; 0]; [1; 0; 0]]) []
     = map Float.fneg
         (nth 0 (Float.nansum_axis1
                   [Gravity.without_coincident [0; 0; 0]
                      [[0; 0; 0]; [0; 0; 0]; [1; 0; 0]]
                      (nth 0 (Gravity.acc_matrix 1 [1; 2; 5]
                                [[0; 0; 0]; [0; 0; 0]; [1; 0; 0]]
                                [[0; 0; 0]; [0; 0; 0]; [1; 0; 0]]) [])]) []).
Proof.
  pose proof (coincident_pairs_discarded 1 [1; 2; 5]
                [[0; 0; 0]; [0; 0; 0]; [1; 0; 0]]
                [[0; 0; 0]; [0; 0; 0]; [1; 0; 0]] 0 1
                eq_refl ltac:(simpl; lia) ltac:(simpl; lia) eq_refl) as H.
  destruct H as (_ & Hpair & Hzero & _ & Hacc & _).
  split; [reflexivity|]. split; [exact Hpair|]. split; [exact Hzero|].
  exact Hacc.
Defined.

(** C6 fails as stated.  Two particles of masses 1 and 2 at the origin and a
    third of mass 5 at
    (1, 0, 0), positions and velocities alike: the pair at the origin is
    degenerate, no error is raised, its entries are not-a-number and are
    discarded, and the acceleration of the first particle is that of the
    third particle alone. *)
Lemma degenerate_pair_masked :
  nth 1 (nth 0 (Gravity.acc_matrix 1 [1; 2; 5]
                  [[0; 0; 0]; [0; 0; 0]; [1; 0; 0]]
                  [[0; 0; 0]; [0; 0; 0]; [1; 0; 0]]) []) []
    = [Float.NaN; Float.NaN; Float.NaN]
  /\ map Float.nan_to_zero
         (nth 1 (nth 0 (Gravity.acc_matrix 1 [1; 2; 5]
                          [[0; 0; 0]; [0; 0; 0]; [1; 0; 0]]
                          [[0; 0; 0]; [0; 0; 0]; [1; 0; 0]]) []) [])
     = [Float.Fin 0; Float.Fin 0; Float.Fin 0]
  /\ Gravity.acc 1 [1; 2; 5]
       [[0; 0; 0]; [0; 0; 0]; [1; 0; 0]]
       [[0; 0; 0]; [0; 0; 0]; [1; 0; 0]]
     = [[Float.Fin 5; Float.Fin 0; Float.Fin 0];
        [Float.Fin 5; Float.Fin 0; Float.Fin 0];
        [Float.Fin (-3); Float.Fin 0; Float.Fin 0]].
Proof.
  split; [|split].
  - unfold_cells. repeat norm_to 0. eval_fdiv. reflexivity.
  - unfold_cells. repeat norm_to 0. eval_fdiv. reflexivity.
  - unfold_cells. repeat (first [norm_to 0 | norm_to 1]).
    eval_fdiv. fin_eq.
Qed.

(** ** The force derivative against its formula *)

(** The acceleration block does not depend on the positions: [pos] is
    [S[:, 3:]], the velocity columns of the state. *)
Lemma acc_ignores_positions (G : R) (mass0 : list R)
    (pos0 pos0' vel : list (list R)) :
  Forall (fun p => length p = 3%nat) pos0 ->
  Forall (fun p => length p = 3%nat) pos0' ->
  length pos0 = length vel -> length pos0' = length vel ->
  Gravity.acc G mass0 pos0 vel = Gravity.acc G mass0 pos0' vel.
Proof.
  intros H3 H3' Hlen Hlen'.
  unfold Gravity.acc, Gravity.acc_matrix, Gravity.dxij, Gravity.xi,
    Gravity.xj.
  now rewrite !pos_is_velocity.
Qed.

(** C1 at a failing input.  G = 1, masses 1 and 2, positions (0,0,0) and
    (2,0,0), velocities (0,0,0) and (0,3,0).  The formula of the claim gives
    the accelerations (1/2, 0, 0) and (-1/4, 0, 0); the cells give
    (0, 2, 0) and (0, -1, 0): the differences are taken between the
    velocities and are divided by the first power of their norm. *)
Theorem force_derivative_divergence :
  Gravity.spec_result 1 [1; 2] [[0; 0; 0]; [2; 0; 0]] 0 = [1 / 2; 0; 0]
  /\ Gravity.spec_result 1 [1; 2] [[0; 0; 0]; [2; 0; 0]] 1 = [- (1 / 4); 0; 0]
  /\ Gravity.acc 1 [1; 2] [[0; 0; 0]; [2; 0; 0]] [[0; 0; 0]; [0; 3; 0]]
     = [[Float.Fin 0; Float.Fin 2; Float.Fin 0];
        [Float.Fin 0; Float.Fin (-1); Float.Fin 0]]
  /\ Gravity.dS 1 [1; 2] [[0; 0; 0]; [2; 0; 0]] [[0; 0; 0]; [0; 3; 0]]
     = [[Float.Fin 0; Float.Fin 0; Float.Fin 0;
         Float.Fin 0; Float.Fin 2; Float.Fin 0];
        [Float.Fin 0; Float.Fin 3; Float.Fin 0;
         Float.Fin 0; Float.Fin (-1); Float.Fin 0]].
Proof.
  assert (Hacc :
    Gravity.acc 1 [1; 2] [[0; 0; 0]; [2; 0; 0]] [[0; 0; 0]; [0; 3; 0]]
    = [[Float.Fin 0; Float.Fin 2; Float.Fin 0];
       [Float.Fin 0; Float.Fin (-1); Float.Fin 0]]).
  { unfold_cells. repeat (first [norm_to 0 | norm_to 3]).
    eval_fdiv. fin_eq. }
  repeat split.
  - unfold Gravity.spec_result, Gravity.spec_term.
    cbn [length seq fold_right Nat.eqb nth Np.map2 map combine fst snd].
    norm_to 2. fin_eq.
  - unfold Gravity.spec_result, Gravity.spec_term.
    cbn [length seq fold_right Nat.eqb nth Np.map2 map combine fst snd].
    norm_to 2. fin_eq.
  - exact Hacc.
  - unfold Gravity.dS. rewrite Hacc. unfold_cells. reflexivity.
Qed.

(** The same two particles with velocities equal to their positions: the
    differences are now the right ones, and the cells still give
    (2, 0, 0) and (-1, 0, 0) where the formula gives (1/2, 0, 0) and
    (-1/4, 0, 0), the divisor being the distance 2 and not its cube 8. *)
Lemma distance_not_cubed :
  Gravity.acc 1 [1; 2] [[0; 0; 0]; [2; 0; 0]] [[0; 0; 0]; [2; 0; 0]]
  = [[Float.Fin 2; Float.Fin 0; Float.Fin 0];
     [Float.Fin (-1); Float.Fin 0; Float.Fin 0]].
Proof.
  unfold_cells. repeat (first [norm_to 0 | norm_to 2]).
  eval_fdiv. fin_eq.
Qed.

(** The separation tensor of the force derivative, the first of the two
    places where the notebook builds it, is taken from [pos = S[:, 3:]]:
    with three coordinates per particle its entry (i, j) is the difference
    of the velocities of i and j. *)
Lemma separation_of_velocities (pos0 vel : list (list R)) (i j : nat) :
  Forall (fun p => length p = 3%nat) pos0 ->
  length pos0 = length vel ->
  (i < length vel)%nat -> (j < length vel)%nat ->
  nth j (nth i (Gravity.dxij pos0 vel) []) []
  = Np.sub1 (nth i vel []) (nth j vel []).
Proof.
  intros H3 Hlen Hi Hj.
  rewrite gravity_dxij_unfold, pos_is_velocity by assumption.
  now apply nth_outer.
Qed.

(** C8 at a failing input.  Positions (0,0,0) and (2,0,0), velocities
    (0,0,0) and (0,3,0), the state being S = [[0,0,0,0,0,0], [2,0,0,0,3,0]].
    The claim gives dx[0,1] = position[0] - position[1] = (-2, 0, 0).  The
    separation tensor of the force derivative has dx[0,1] = (0, -3, 0), the
    difference of the two velocities: its [pos] is [S[:, 3:]], the slip of
    C1.  The tensor of the kernel cell, built from the positions
    themselves, has the entry of the claim. *)
Theorem separation_tensor_reads_velocities :
  nth 1 (nth 0 (Gravity.dxij [[0; 0; 0]; [2; 0; 0]]
                             [[0; 0; 0]; [0; 3; 0]]) []) []
    = [0 - 0; 0 - 3; 0 - 0]
  /\ Np.sub1 (nth 0 [[0; 0; 0]; [2; 0; 0]] []) (nth 1 [[0; 0; 0]; [2; 0; 0]] [])
     = [0 - 2; 0 - 0; 0 - 0]
  /\ nth 1 (nth 0 (Gravity.dxij [[0; 0; 0]; [2; 0; 0]]
                                [[0; 0; 0]; [0; 3; 0]]) []) []
     <> Np.sub1 (nth 0 [[0; 0; 0]; [2; 0; 0]] [])
                (nth 1 [[0; 0; 0]; [2; 0; 0]] [])
  /\ nth 1 (nth 0 (Gravity.dxij [[0; 0; 0]; [2; 0; 0]]
                                [[0; 0; 0]; [0; 3; 0]]) []) []
     = Np.sub1 (nth 0 [[0; 0; 0]; [0; 3; 0]] [])
               (nth 1 [[0; 0; 0]; [0; 3; 0]] [])
  /\ nth 1 (nth 0 (Kernel.dxij [[0; 0; 0]; [2; 0; 0]]) []) []
     = Np.sub1 (nth 0 [[0; 0; 0]; [2; 0; 0]] [])
               (nth 1 [[0; 0; 0]; [2; 0; 0]] []).
Proof.
  split; [reflexivity|]. split; [reflexivity|].
  split; [|split; reflexivity].
  cbn. intros H. injection H as H _. lra.
Qed.

(** The end-to-end example of the specification: particles at (0,0,0) and
    (1,0,0), masses 1 and 2, G = 1, acceleration (2, 0, 0) on the first.
    With both particles at rest the cells give no acceleration at all. *)
Example end_to_end_example :
  Gravity.spec_result 1 [1; 2] [[0; 0; 0]; [1; 0; 0]] 0 = [2; 0; 0]
  /\ Gravity.acc 1 [1; 2] [[0; 0; 0]; [1; 0; 0]] [[0; 0; 0]; [0; 0; 0]]
     = [[Float.Fin 0; Float.Fin 0; Float.Fin 0];
        [Float.Fin 0; Float.Fin 0; Float.Fin 0]].
Proof.
  split.
  - unfold Gravity.spec_result, Gravity.spec_term.
    cbn [length seq fold_right Nat.eqb nth Np.map2 map combine fst snd].
    norm_to 1. fin_eq.
  - unfold_cells. repeat norm_to 0. eval_fdiv. fin_eq.
Qed.

(** * Further properties of the cells *)

(** ** The state derivative *)

Section StateDerivative.
Import Np Float Gravity.

Lemma length_vector_sum (k : nat) (l : list (list R)) :
  Forall (fun t => length t = k) l ->
  length (fold_right (map2 Rplus) (repeat 0 k) l) = k.
Proof.
  induction 1 as [|t l Ht _ IH]; simpl; [apply repeat_length|].
  rewrite length_map2, IH, Ht. apply Nat.min_id.
Qed.

Lemma length_acc_term (G m : R) (p q : list R) :
  length p = length q -> length (acc_term G m p q) = length p.
Proof.
  intros H. unfold acc_term. rewrite length_map. now apply length_sub1.
Qed.

Variable G : R.
Variable mass0 : list R.
Variables pos0 vel : list (list R).

Hypothesis Hpos0 : Forall (fun p => length p = 3%nat) pos0.
Hypothesis Hvel : Forall (fun v => length v = 3%nat) vel.
Hypothesis Hlen : length pos0 = length vel.
Hypothesis Hmass : length mass0 = length vel.

Lemma pos_vel : pos pos0 vel = vel.
Proof. now apply pos_is_velocity. Qed.

Lemma acc_row_velocity (i : nat) :
  (i < length vel)%nat ->
  nth i (acc G mass0 pos0 vel) []
  = map Fin
      (map Ropp
         (fold_right (map2 Rplus) [0; 0; 0]
            (map2 (fun m q => acc_term G m (nth i vel []) q) mass0 vel))).
Proof.
  pose proof (acc_row G mass0 pos0 vel 3) as H.
  rewrite pos_vel in H. intros Hi. now apply H.
Qed.

Lemma length_acc : length (acc G mass0 pos0 vel) = length vel.
Proof.
  unfold acc, nansum_axis1.
  rewrite acc_matrix_unfold by now rewrite pos_vel.
  now rewrite !length_map, pos_vel.
Qed.

Lemma length_acc_row (i : nat) :
  (i < length vel)%nat -> length (nth i (acc G mass0 pos0 vel) []) = 3%nat.
Proof.
  intros Hi. rewrite acc_row_velocity by exact Hi.
  rewrite !length_map.
  apply (length_vector_sum 3).
  rewrite Forall_forall in Hvel.
  assert (Hvi : length (nth i vel []) = 3%nat)
    by (apply Hvel, nth_In; exact Hi).
  apply Forall_forall; intros t Ht.
  unfold map2 in Ht. apply in_map_iff in Ht.
  destruct Ht as ([m q] & <- & Hin). cbn [fst snd].
  apply in_combine_r in Hin.
  rewrite length_acc_term; [exact Hvi|].
  rewrite Hvi. symmetry. now apply Hvel.
Qed.

Lemma length_S : length (S pos0 vel) = length vel.
Proof.
  unfold S, hstack. rewrite length_map2, Hlen. apply Nat.min_id.
Qed.

Lemma nth_dS_first (i : nat) :
  (i < length vel)%nat ->
  nth i (dS_first pos0 vel) []
  = map Fin (nth i vel []) ++ skipn 3 (nth i (dS_zeros pos0 vel) []).
Proof.
  intros Hi. unfold dS_first, set_cols_upto.
  fold (pos pos0 vel). rewrite pos_vel.
  rewrite (nth_map2 _ _ _ i [] [] [])
    by (unfold dS_zeros; rewrite ?length_map, ?length_S; exact Hi).
  now rewrite (nth_map_in (map Fin) vel i [] []) by exact Hi.
Qed.

Lemma length_dS_first : length (dS_first pos0 vel) = length vel.
Proof.
  unfold dS_first, set_cols_upto, dS_zeros.
  fold (pos pos0 vel). rewrite pos_vel.
  rewrite length_map2, !length_map, length_S. apply Nat.min_id.
Qed.

Lemma nth_dS (i : nat) :
  (i < length vel)%nat ->
  nth i (dS G mass0 pos0 vel) []
  = map Fin (nth i vel []) ++ nth i (acc G mass0 pos0 vel) [].
Proof.
  intros Hi. unfold dS, set_cols_from.
  rewrite (nth_map2 _ _ _ i [] [] [])
    by (rewrite ?length_dS_first, ?length_acc; exact Hi).
  rewrite nth_dS_first by exact Hi.
  f_equal.
  rewrite Forall_forall in Hvel.
  assert (Hvi : length (nth i vel []) = 3%nat)
    by (apply Hvel, nth_In; exact Hi).
  rewrite firstn_app, length_map, Hvi, Nat.sub_diag, firstn_O, app_nil_r.
  apply firstn_all2. rewrite length_map. lia.
Qed.

Lemma length_dS : length (dS G mass0 pos0 vel) = length vel.
Proof.
  unfold dS, set_cols_from.
  rewrite length_map2, length_dS_first, length_acc. apply Nat.min_id.
Qed.

End StateDerivative.

(** X1.  For N bodies with three position and three velocity coordinates
    and N masses, [dS] has N rows of length 6: the first three entries of
    row i are the velocity of body i ([dS[:, :3] = S[:, 3:]]), the last
    three are row i of the acceleration block
    ([dS[:, 3:] = -np.nansum(acc_matrix, axis=1)]). *)
Theorem state_derivative_layout (G : R) (mass0 : list R)
    (pos0 vel : list (list R)) (i : nat) :
  Forall (fun p => length p = 3%nat) pos0 ->
  Forall (fun v => length v = 3%nat) vel ->
  length pos0 = length vel -> length mass0 = length vel ->
  (i < length vel)%nat ->
  length (Gravity.dS G mass0 pos0 vel) = length vel
  /\ nth i (Gravity.dS G mass0 pos0 vel) []
     = map Float.Fin (nth i vel []) ++ nth i (Gravity.acc G mass0 pos0 vel) []
  /\ length (nth i (Gravity.acc G mass0 pos0 vel) []) = 3%nat
  /\ length (nth i (Gravity.dS G mass0 pos0 vel) []) = 6%nat.
Proof.
  intros Hp Hv Hlen Hmass Hi.
  assert (Hrow := nth_dS G mass0 pos0 vel Hp Hv Hlen Hmass i Hi).
  assert (Hacc := length_acc_row G mass0 pos0 vel Hp Hv Hlen Hmass i Hi).
  split; [now apply length_dS|]. split; [exact Hrow|].
  split; [exact Hacc|].
  rewrite Hrow, length_app, length_map, Hacc.
  rewrite Forall_forall in Hv.
  rewrite (Hv (nth i vel [])) by (apply nth_In; exact Hi).
  reflexivity.
Qed.

Lemma state_derivative_layout_witness :
  (1 < length [[0; 0; 0]; [0; 3; 0]]%R)%nat
  /\ nth 1 (Gravity.dS 1 [1; 2] [[0; 0; 0]; [2; 0; 0]]
                       [[0; 0; 0]; [0; 3; 0]]) []
     = map Float.Fin [0; 3; 0]
       ++ nth 1 (Gravity.acc 1 [1; 2] [[0; 0; 0]; [2; 0; 0]]
                             [[0; 0; 0]; [0; 3; 0]]) []
  /\ length (nth 1 (Gravity.dS 1 [1; 2] [[0; 0; 0]; [2; 0; 0]]
                               [[0; 0; 0]; [0; 3; 0]]) []) = 6%nat.
Proof.
  pose proof (state_derivative_layout 1 [1; 2] [[0; 0; 0]; [2; 0; 0]]
                [[0; 0; 0]; [0; 3; 0]] 1
                ltac:(repeat constructor) ltac:(repeat constructor)
                eq_refl eq_refl ltac:(simpl; lia)) as H.
  destruct H as (_ & Hrow & _ & Hsix).
  split; [simpl; lia|]. split; [exact Hrow | exact Hsix].
Defined.

(** X3.  The state derivative does not read the position columns: two
    states with the same velocities and masses, and any positions of the
    same shape, have the same [dS]. *)
Theorem state_derivative_ignores_positions (G : R) (mass0 : list R)
    (pos0 pos0' vel : list (list R)) :
  Forall (fun p => length p = 3%nat) pos0 ->
  Forall (fun p => length p = 3%nat) pos0' ->
  Forall (fun v => length v = 3%nat) vel ->
  length pos0 = length vel -> length pos0' = length vel ->
  length mass0 = length vel ->
  Gravity.dS G mass0 pos0 vel = Gravity.dS G mass0 pos0' vel.
Proof.
  intros Hp Hp' Hv Hlen Hlen' Hmass.
  apply (nth_ext _ _ [] []).
  - now rewrite !length_dS.
  - rewrite length_dS by assumption. intros i Hi.
    rewrite !nth_dS by assumption.
    f_equal. f_equal. now apply acc_ignores_positions.
Qed.

Lemma state_derivative_ignores_positions_witness :
  Gravity.dS 1 [1; 2] [[0; 0; 0]; [2; 0; 0]] [[0; 0; 0]; [0; 3; 0]]
  = Gravity.dS 1 [1; 2] [[5; 5; 5]; [7; 1; 4]] [[0; 0; 0]; [0; 3; 0]].
Proof.
  apply state_derivative_ignores_positions;
    first [repeat constructor | reflexivity].
Defined.

(** ** Shapes and symmetry of the kernel arrays *)

Section KernelShapes.
Import Np Kernel.

Variables h alpha : R.
Variable pos : list (list R).
Variable k : nat.
Hypothesis Hshape : Forall (fun p => length p = k) pos.

Lemma dxij_shape : Dot.shape3 (length pos) (length pos) k (dxij pos).
Proof.
  rewrite kernel_dxij_unfold. split; [apply length_map|].
  apply Forall_forall; intros row Hrow.
  apply in_map_iff in Hrow. destruct Hrow as (p & <- & Hp).
  split; [apply length_map|].
  apply Forall_forall; intros v Hv.
  apply in_map_iff in Hv. destruct Hv as (q & <- & Hq).
  rewrite Forall_forall in Hshape.
  rewrite length_sub1; [now apply Hshape|].
  now rewrite !Hshape.
Qed.

Lemma entrywise_shape2 {T : Type} (F : list R -> T) :
  shape2 (length pos) (length pos) (map (map F) (dxij pos)).
Proof.
  destruct dxij_shape as [Hn Hrows].
  split; [now rewrite length_map|].
  apply Forall_map. eapply Forall_impl; [|exact Hrows].
  intros row [Hrow _]. cbv beta. now rewrite length_map.
Qed.

Lemma length_dW_entry (v : list R) : length (dW_entry h alpha v) = length v.
Proof.
  unfold dW_entry.
  destruct (in_I2 (R_entry h v)), (in_I1 (R_entry h v));
    now rewrite ?length_map.
Qed.

Lemma dW_shape : Dot.shape3 (length pos) (length pos) k (dW h alpha pos).
Proof.
  rewrite dW_unfold.
  destruct dxij_shape as [Hn Hrows].
  split; [now rewrite length_map|].
  apply Forall_map. eapply Forall_impl; [|exact Hrows].
  intros row [Hrow Hvecs]. cbv beta.
  split; [now rewrite length_map|].
  apply Forall_map. eapply Forall_impl; [|exact Hvecs].
  intros v Hv. cbv beta in *. now rewrite length_dW_entry.
Qed.

Lemma length_neighbours : length (neighbours h pos) = length pos.
Proof.
  unfold neighbours, count_axis0.
  destruct (entrywise_shape2 (fun v => in_I1 (R_entry h v))) as [Hn Hrows].
  rewrite <- I1_unfold in Hn, Hrows.
  assert (Hhd : length (hd [] (I1 h pos)) = length pos).
  { destruct (I1 h pos) as [|row rows] eqn:E.
    - simpl in *. exact Hn.
    - simpl. now inversion Hrows. }
  rewrite Hhd. now apply length_count_fold.
Qed.

End KernelShapes.

(** X6.  For N particles with k coordinates each, [dxij] and [dW] have shape
    (N, N, k), the arrays [rij], [R], [I1], [I2] and [W] have shape (N, N),
    and [I1.sum(axis=0)] has length N. *)
Theorem kernel_shapes (h alpha : R) (pos : list (list R)) (k : nat) :
  Forall (fun p => length p = k) pos ->
  Dot.shape3 (length pos) (length pos) k (Kernel.dxij pos)
  /\ Np.shape2 (length pos) (length pos) (Kernel.rij pos)
  /\ Np.shape2 (length pos) (length pos) (Kernel.Rij h pos)
  /\ Np.shape2 (length pos) (length pos) (Kernel.I1 h pos)
  /\ Np.shape2 (length pos) (length pos) (Kernel.I2 h pos)
  /\ Np.shape2 (length pos) (length pos) (Kernel.W h alpha pos)
  /\ Dot.shape3 (length pos) (length pos) k (Kernel.dW h alpha pos)
  /\ length (Kernel.neighbours h pos) = length pos.
Proof.
  intros Hshape.
  split; [now apply dxij_shape|].
  split; [rewrite rij_unfold; now apply (entrywise_shape2 pos k)|].
  split; [rewrite Rij_unfold; now apply (entrywise_shape2 pos k)|].
  split; [rewrite I1_unfold; now apply (entrywise_shape2 pos k)|].
  split; [rewrite I2_unfold; now apply (entrywise_shape2 pos k)|].
  split; [rewrite W_unfold; now apply (entrywise_shape2 pos k)|].
  split; [now apply dW_shape | now apply (length_neighbours h pos k)].
Qed.

Lemma kernel_shapes_witness :
  Dot.shape3 2 2 3 (Kernel.dxij [[0; 0; 0]; [1; 0; 0]])
  /\ Np.shape2 2 2 (Kernel.W 1 1 [[0; 0; 0]; [1; 0; 0]])
  /\ Dot.shape3 2 2 3 (Kernel.dW 1 1 [[0; 0; 0]; [1; 0; 0]])
  /\ length (Kernel.neighbours 1 [[0; 0; 0]; [1; 0; 0]]) = 2%nat.
Proof.
  pose proof (kernel_shapes 1 1 [[0; 0; 0]; [1; 0; 0]] 3
                ltac:(repeat constructor)) as H.
  destruct H as (Hdx & _ & _ & _ & _ & HW & HdW & Hn).
  split; [exact Hdx|]. split; [exact HW|]. split; [exact HdW | exact Hn].
Defined.

Section KernelSymmetry.
Import Np Kernel.

Lemma W_entry_opp (h alpha : R) (v : list R) :
  W_entry h alpha (map Ropp v) = W_entry h alpha v.
Proof. unfold W_entry, R_entry. now rewrite norm_opp. Qed.

Lemma dW_entry_opp (h alpha : R) (v : list R) :
  dW_entry h alpha (map Ropp v) = map Ropp (dW_entry h alpha v).
Proof.
  unfold dW_entry, R_entry. rewrite norm_opp.
  destruct (in_I2 (norm v / h)); [|destruct (in_I1 (norm v / h))];
    rewrite !map_map; apply map_ext; intros c; unfold Rdiv; ring.
Qed.

End KernelSymmetry.

(** X7.  The kernel arrays are symmetric and the gradient is antisymmetric:
    for all particles i and j, R[i,j] = R[j,i], the two masks and W agree
    at (i, j) and (j, i), and dW[i,j] = -dW[j,i]. *)
Theorem kernel_symmetry (h alpha : R) (pos : list (list R)) (i j : nat) :
  (i < length pos)%nat -> (j < length pos)%nat ->
  nth j (nth i (Kernel.Rij h pos) []) 0 = nth i (nth j (Kernel.Rij h pos) []) 0
  /\ nth j (nth i (Kernel.I1 h pos) []) false
     = nth i (nth j (Kernel.I1 h pos) []) false
  /\ nth j (nth i (Kernel.I2 h pos) []) false
     = nth i (nth j (Kernel.I2 h pos) []) false
  /\ nth j (nth i (Kernel.W h alpha pos) []) 0
     = nth i (nth j (Kernel.W h alpha pos) []) 0
  /\ nth j (nth i (Kernel.dW h alpha pos) []) []
     = map Ropp (nth i (nth j (Kernel.dW h alpha pos) []) []).
Proof.
  intros Hi Hj.
  rewrite Rij_unfold, I1_unfold, I2_unfold, W_unfold, dW_unfold.
  rewrite !(nth_entrywise pos _ i j), !(nth_entrywise pos _ j i)
    by assumption.
  rewrite (sub1_antisym (nth i pos []) (nth j pos [])).
  rewrite W_entry_opp, dW_entry_opp.
  unfold Kernel.R_entry. rewrite norm_opp.
  repeat split.
Qed.

Lemma kernel_symmetry_witness :
  (0 < 2)%nat /\ (1 < 2)%nat
  /\ nth 1 (nth 0 (Kernel.W 1 1 [[0; 0; 0]; [1; 0; 0]]) []) 0
     = nth 0 (nth 1 (Kernel.W 1 1 [[0; 0; 0]; [1; 0; 0]]) []) 0
  /\ nth 1 (nth 0 (Kernel.dW 1 1 [[0; 0; 0]; [1; 0; 0]]) []) []
     = map Ropp (nth 0 (nth 1 (Kernel.dW 1 1 [[0; 0; 0]; [1; 0; 0]]) []) []).
Proof.
  pose proof (kernel_symmetry 1 1 [[0; 0; 0]; [1; 0; 0]] 0 1
                ltac:(simpl; lia) ltac:(simpl; lia)) as H.
  destruct H as (_ & _ & _ & HW & HdW).
  split; [lia|]. split; [lia|]. split; [exact HW | exact HdW].
Defined.

Section GradientEntries.
Import Np Kernel.

Lemma zeros_repeat (v : list R) : map (fun _ => 0) v = repeat 0 (length v).
Proof. induction v as [|c v IH]; simpl; [reflexivity|]. now rewrite IH. Qed.

(** The three cases of one entry of the gradient. *)
Lemma dW_entry_cases (h alpha : R) (v : list R) :
  0 < h ->
  (0 <= R_entry h v < 1 ->
   dW_entry h alpha v
   = map (fun c => alpha * (-2 + 3 / 2 * R_entry h v) * c / h ^ 2) v)
  /\ (1 <= R_entry h v < 2 ->
      dW_entry h alpha v
      = map (fun c => alpha * (-1 / 2 * (2 - R_entry h v) ^ 2) * c
                      / (h * norm v)) v)
  /\ (2 <= R_entry h v -> dW_entry h alpha v = repeat 0 (length v)).
Proof.
  intros Hh. unfold dW_entry.
  pose proof (in_I1_true (R_entry h v)) as H1.
  pose proof (in_I2_true (R_entry h v)) as H2.
  destruct (in_I2 (R_entry h v)) eqn:E2;
    [|destruct (in_I1 (R_entry h v)) eqn:E1].
  - destruct H2 as [H2 _]. specialize (H2 eq_refl).
    repeat split; intros; try (exfalso; lra).
    rewrite map_map. reflexivity.
  - destruct H1 as [H1 _]. specialize (H1 eq_refl).
    repeat split; intros; try (exfalso; lra).
    rewrite map_map. reflexivity.
  - assert (N1 : ~ (0 <= R_entry h v < 1))
      by (intros Habs; apply H1 in Habs; discriminate).
    assert (N2 : ~ (1 <= R_entry h v < 2))
      by (intros Habs; apply H2 in Habs; discriminate).
    repeat split; intros; try (exfalso; lra).
    apply zeros_repeat.
Qed.

End GradientEntries.

(** X8.  The gradient, branch by branch.  For every pair (i, j) and every
    h > 0, with R = R[i,j], r = rij[i,j] and dx = dxij[i,j]: dW[i,j] is
    alpha * (-2 + 3/2 R) * dx / h^2 when 0 <= R < 1, it is
    alpha * (-1/2 (2 - R)^2) * dx / (h r) when 1 <= R < 2, and it is the
    zero vector when R >= 2. *)
Theorem gradient_piecewise (h alpha : R) (pos : list (list R)) (i j : nat) :
  0 < h -> (i < length pos)%nat -> (j < length pos)%nat ->
  let r := nth j (nth i (Kernel.Rij h pos) []) 0 in
  let d := nth j (nth i (Kernel.rij pos) []) 0 in
  let dx := nth j (nth i (Kernel.dxij pos) []) [] in
  let g := nth j (nth i (Kernel.dW h alpha pos) []) [] in
  (0 <= r < 1 ->
   g = map (fun c => alpha * (-2 + 3 / 2 * r) * c / h ^ 2) dx)
  /\ (1 <= r < 2 ->
      g = map (fun c => alpha * (-1 / 2 * (2 - r) ^ 2) * c / (h * d)) dx)
  /\ (2 <= r -> g = repeat 0 (length dx)).
Proof.
  intros Hh Hi Hj. cbv zeta.
  rewrite nth_dxij by assumption.
  rewrite Rij_unfold, rij_unfold, dW_unfold.
  rewrite !(nth_entrywise pos _ i j) by assumption.
  now apply dW_entry_cases.
Qed.

Lemma gradient_piecewise_witness :
  0 < 1 /\ (0 < 2)%nat /\ (1 < 2)%nat
  /\ nth 1 (nth 0 (Kernel.dW 1 1 [[0; 0; 0]; [3; 0; 0]]) []) []
     = repeat 0 (length (nth 1 (nth 0 (Kernel.dxij [[0; 0; 0]; [3; 0; 0]])
                                    []) [])).
Proof.
  pose proof (gradient_piecewise 1 1 [[0; 0; 0]; [3; 0; 0]] 0 1
                ltac:(lra) ltac:(simpl; lia) ltac:(simpl; lia)) as H.
  cbv zeta in H. destruct H as (_ & _ & H).
  split; [lra|]. split; [lia|]. split; [lia|].
  apply H.
  rewrite Rij_unfold, (nth_entrywise _ _ 0 1) by (simpl; lia).
  cbn [nth Np.sub1 Np.bcast Np.map2 map combine fst snd].
  unfold Kernel.R_entry.
  rewrite (norm_value _ 3); [lra | lra | simpl; lra].
Defined.

(** ** Range of the kernel *)

Section KernelRange.
Import Np Kernel.

Lemma W_branch1_range (r : R) :
  0 <= r < 1 -> 1 / 6 < 2 / 3 - r ^ 2 + 1 / 2 * r ^ 3 <= 2 / 3.
Proof.
  intros [H0 H1]. split.
  - replace (2 / 3 - r ^ 2 + 1 / 2 * r ^ 3)
      with (1 / 6 + (1 - r) * (1 + r * (1 - r)) / 2) by field.
    assert (0 < (1 - r) * (1 + r * (1 - r))) by (apply Rmult_lt_0_compat; nra).
    lra.
  - replace (2 / 3 - r ^ 2 + 1 / 2 * r ^ 3)
      with (2 / 3 - r * r * (1 - r / 2)) by field.
    assert (0 <= r * r * (1 - r / 2))
      by (apply Rmult_le_pos; [apply Rmult_le_pos; lra | lra]).
    lra.
Qed.

Lemma W_branch2_range (r : R) :
  1 <= r < 2 -> 0 < 1 / 6 * (2 - r) ^ 3 <= 1 / 6.
Proof.
  intros [H1 H2].
  assert (H0 : 0 < 2 - r <= 1) by lra.
  assert (Hp : 0 < (2 - r) ^ 3) by (apply pow_lt; lra).
  assert (Hq : (2 - r) ^ 3 <= 1).
  { replace 1 with (1 ^ 3) by ring. apply pow_incr. lra. }
  lra.
Qed.

Lemma W_entry_range (h alpha : R) (v : list R) :
  0 < h -> 0 <= alpha ->
  0 <= W_entry h alpha v <= alpha * 2 / 3.
Proof.
  intros Hh Ha. unfold W_entry, W_branch1, W_branch2.
  pose proof (in_I1_true (R_entry h v)) as H1.
  pose proof (in_I2_true (R_entry h v)) as H2.
  destruct (in_I2 (R_entry h v));
    [|destruct (in_I1 (R_entry h v))].
  - destruct H2 as [H2 _]. specialize (H2 eq_refl).
    pose proof (W_branch2_range _ H2). nra.
  - destruct H1 as [H1 _]. specialize (H1 eq_refl).
    pose proof (W_branch1_range _ H1). nra.
  - lra.
Qed.

Lemma W_entry_support (h alpha : R) (v : list R) :
  0 < h -> 0 < alpha ->
  (0 < W_entry h alpha v <-> R_entry h v < 2).
Proof.
  intros Hh Ha. unfold W_entry, W_branch1, W_branch2.
  pose proof (R_entry_nonneg h v Hh) as Hr.
  pose proof (in_I1_true (R_entry h v)) as H1.
  pose proof (in_I2_true (R_entry h v)) as H2.
  destruct (in_I2 (R_entry h v));
    [|destruct (in_I1 (R_entry h v))].
  - destruct H2 as [H2 _]. specialize (H2 eq_refl).
    pose proof (W_branch2_range _ H2). split; intros; [lra | nra].
  - destruct H1 as [H1 _]. specialize (H1 eq_refl).
    pose proof (W_branch1_range _ H1). split; intros; [lra | nra].
  - assert (N1 : ~ (0 <= R_entry h v < 1))
      by (intros Habs; apply H1 in Habs; discriminate).
    assert (N2 : ~ (1 <= R_entry h v < 2))
      by (intros Habs; apply H2 in Habs; discriminate).
    split; intros; lra.
Qed.

End KernelRange.

(** X9.  For h > 0 and alpha >= 0 every entry of W lies between 0 and the
    diagonal value alpha * 2/3; for alpha > 0 the entry is positive exactly
    when R[i,j] < 2, so W has the compact support of the kernel. *)
Theorem kernel_range (h alpha : R) (pos : list (list R)) (i j : nat) :
  0 < h -> 0 <= alpha -> (i < length pos)%nat -> (j < length pos)%nat ->
  0 <= nth j (nth i (Kernel.W h alpha pos) []) 0 <= alpha * 2 / 3
  /\ (0 < alpha ->
      (0 < nth j (nth i (Kernel.W h alpha pos) []) 0
       <-> nth j (nth i (Kernel.Rij h pos) []) 0 < 2)).
Proof.
  intros Hh Ha Hi Hj.
  rewrite W_unfold, Rij_unfold.
  rewrite !(nth_entrywise pos _ i j) by assumption.
  split; [now apply W_entry_range|].
  intros Ha'. now apply W_entry_support.
Qed.

Lemma kernel_range_witness :
  0 < 1 /\ 0 <= 1 /\ (0 < 2)%nat /\ (1 < 2)%nat
  /\ 0 <= nth 1 (nth 0 (Kernel.W 1 1 [[0; 0; 0]; [1; 0; 0]]) []) 0
     <= 1 * 2 / 3.
Proof.
  pose proof (kernel_range 1 1 [[0; 0; 0]; [1; 0; 0]] 0 1
                ltac:(lra) ltac:(lra) ltac:(simpl; lia) ltac:(simpl; lia))
    as H.
  destruct H as (H & _).
  split; [lra|]. split; [lra|]. split; [lia|]. split; [lia|]. exact H.
Defined.

(** X10.  The gradient is continuous at the branch boundaries.  At a pair
    with R[i,j] = 1 the entry dW[i,j], which the second assignment writes,
    is what the formula of the first assignment gives at R = 1, namely
    -alpha / (2 h^2) * dx; at a pair with R[i,j] = 2 the entry is the zero
    vector, which is what the formula of the second assignment gives at
    R = 2. *)
Theorem gradient_continuity (h alpha : R) (pos : list (list R)) (i j : nat) :
  0 < h -> (i < length pos)%nat -> (j < length pos)%nat ->
  let r := nth j (nth i (Kernel.Rij h pos) []) 0 in
  let d := nth j (nth i (Kernel.rij pos) []) 0 in
  let dx := nth j (nth i (Kernel.dxij pos) []) [] in
  let g := nth j (nth i (Kernel.dW h alpha pos) []) [] in
  (r = 1 ->
   g = map (fun c => alpha * (-2 + 3 / 2 * 1) * c / h ^ 2) dx
   /\ g = map (fun c => - alpha / (2 * h ^ 2) * c) dx)
  /\ (r = 2 ->
      g = map (fun c => alpha * (-1 / 2 * (2 - 2) ^ 2) * c / (h * d)) dx
      /\ g = repeat 0 (length dx)).
Proof.
  intros Hh Hi Hj. cbv zeta.
  rewrite nth_dxij by assumption.
  rewrite Rij_unfold, rij_unfold, dW_unfold.
  rewrite !(nth_entrywise pos _ i j) by assumption.
  set (v := Np.sub1 (nth i pos []) (nth j pos [])).
  destruct (dW_entry_cases h alpha v Hh) as (_ & H12 & H2).
  split; intros Hr.
  - assert (Hd : Np.norm v = h).
    { unfold Kernel.R_entry in Hr.
      replace (Np.norm v) with (Np.norm v / h * h) by (field; lra).
      rewrite Hr. lra. }
    rewrite H12 by (rewrite Hr; lra).
    rewrite Hr, Hd.
    split; apply map_ext; intros c; field; lra.
  - rewrite H2 by (rewrite Hr; lra).
    split; [|reflexivity].
    rewrite <- zeros_repeat.
    apply map_ext; intros c. unfold Rdiv. ring.
Qed.

Lemma gradient_continuity_witness :
  0 < 1 /\ (0 < 2)%nat /\ (1 < 2)%nat
  /\ nth 1 (nth 0 (Kernel.dW 1 1 [[0; 0; 0]; [1; 0; 0]]) []) []
     = map (fun c => - 1 / (2 * 1 ^ 2) * c)
           (nth 1 (nth 0 (Kernel.dxij [[0; 0; 0]; [1; 0; 0]]) []) []).
Proof.
  pose proof (gradient_continuity 1 1 [[0; 0; 0]; [1; 0; 0]] 0 1
                ltac:(lra) ltac:(simpl; lia) ltac:(simpl; lia)) as H.
  cbv zeta in H. destruct H as (H & _).
  split; [lra|]. split; [lia|]. split; [lia|].
  apply H.
  rewrite Rij_unfold, (nth_entrywise _ _ 0 1) by (simpl; lia).
  cbn [nth Np.sub1 Np.bcast Np.map2 map combine fst snd].
  unfold Kernel.R_entry.
  rewrite (norm_value _ 1); [lra | lra | simpl; lra].
Defined.

(** ** Particles at one place *)

Section SamePlace.
Import PrimFloat.
Local Open Scope float_scope.

(** X13.  On binary64 numbers, for two particles i and j with equal rows of
    [pos] (i = j or not): whatever h and alpha are, the second mask does
    not select the pair, so that the division by h * r is not made for it.
    When the coordinates of the row are finite, [h**2] is finite and not
    zero and [alpha * -2] is finite, r[i,j] is a zero, the first mask
    selects the pair, and the gradient between the two has a zero in every
    component. *)
Theorem kernel_coincident_pair (h alpha : float) (pos : list (list float))
    (i j : nat) :
  (i < length pos)%nat -> (j < length pos)%nat ->
  nth i pos [] = nth j pos [] ->
  nth j (nth i (Binary64.I2 h pos) []) true = false
  /\ (Forall (fun c => is_finite c = true) (nth i pos []) ->
      is_finite (Binary64.hsq h) = true ->
      is_zero (Binary64.hsq h) = false ->
      is_finite (alpha * -2) = true ->
      is_zero (nth j (nth i (Binary64.rij pos) []) nan) = true
      /\ nth j (nth i (Binary64.I1 h pos) []) false = true
      /\ length (nth j (nth i (Binary64.dW h alpha pos) []) [])
         = length (nth i pos [])
      /\ Forall (fun x => is_zero x = true)
                (nth j (nth i (Binary64.dW h alpha pos) []) [])).
Proof.
  intros Hi Hj Heq. split.
  - rewrite binary64_I2_unfold, binary64_nth_entrywise by assumption.
    rewrite <- Heq. apply in_I2_same_place.
  - intros Hp Hf Hz Ha.
    destruct (dW_entry_same_place h alpha _ Hp Hf Hz Ha)
      as (Hr & E1 & _ & Hzero & Hlen).
    unfold Binary64.rij.
    rewrite binary64_I1_unfold, binary64_dW_unfold.
    rewrite !binary64_nth_entrywise by assumption.
    rewrite <- Heq.
    split; [apply zero_is_zero; now apply pzero_a_zero|].
    split; [exact E1|]. split; [exact Hlen | exact Hzero].
Qed.

Lemma kernel_coincident_pair_witness :
  (0 < length [[1; 2; 3]; [1; 2; 3]])%nat
  /\ (1 < length [[1; 2; 3]; [1; 2; 3]])%nat
  /\ nth 1 (nth 0 (Binary64.I2 0x1p-8 [[1; 2; 3]; [1; 2; 3]]) []) true
     = false
  /\ nth 1 (nth 0 (Binary64.I1 0x1p-8 [[1; 2; 3]; [1; 2; 3]]) []) false
     = true
  /\ Forall (fun x => is_zero x = true)
            (nth 1 (nth 0 (Binary64.dW 0x1p-8 1 [[1; 2; 3]; [1; 2; 3]])
                        []) []).
Proof.
  pose proof (kernel_coincident_pair 0x1p-8 1 [[1; 2; 3]; [1; 2; 3]] 0 1
                ltac:(simpl; lia) ltac:(simpl; lia) eq_refl) as H.
  destruct H as (H2 & H).
  destruct (H ltac:(repeat constructor) eq_refl eq_refl eq_refl)
    as (_ & H1 & _ & Hzero).
  split; [simpl; lia|]. split; [simpl; lia|].
  split; [exact H2|]. split; [exact H1 | exact Hzero].
Defined.

End SamePlace.

(** ** Counting neighbours by rows and by columns *)

Section RowCounts.
Import Np Kernel.

Lemma length_filter_bound {A : Type} (P : A -> bool) (l : list A) :
  (length (filter P l) <= length l)%nat.
Proof.
  induction l as [|x l IH]; simpl; [lia|].
  destruct (P x); simpl; lia.
Qed.

Lemma row_count_filter (h : R) (pos : list (list R)) (i : nat) :
  (i < length pos)%nat ->
  count_true (nth i (I1 h pos) [])
  = length (filter (fun q => in_I1 (R_entry h (sub1 (nth i pos []) q))) pos).
Proof.
  intros Hi. unfold count_true.
  rewrite count_true_from, I1_rows.
  rewrite (nth_map_in _ pos i [] []) by exact Hi.
  now rewrite length_filter_map.
Qed.

End RowCounts.

(** X14.  Counting the [True] entries of row i of [I1], as the notebook does
    with [sum(I1[0])], gives entry i of [I1.sum(axis=0)], for every
    particle i; the count is at most the number of particles. *)
Theorem neighbour_rows_and_columns (h : R) (pos : list (list R)) (i : nat) :
  (i < length pos)%nat ->
  Np.count_true (nth i (Kernel.I1 h pos) [])
  = nth i (Kernel.neighbours h pos) 0%nat
  /\ (nth i (Kernel.neighbours h pos) 0 <= length pos)%nat.
Proof.
  intros Hi.
  rewrite row_count_filter, neighbours_filter by exact Hi.
  split.
  - f_equal. apply filter_ext; intros p. now rewrite R_entry_sym.
  - apply length_filter_bound.
Qed.

Lemma neighbour_rows_and_columns_witness :
  (1 < 2)%nat
  /\ Np.count_true (nth 1 (Kernel.I1 1%R [[0; 0; 0]; [1; 0; 0]]%R) [])
     = nth 1 (Kernel.neighbours 1%R [[0; 0; 0]; [1; 0; 0]]%R) 0%nat.
Proof.
  split; [lia|].
  apply (neighbour_rows_and_columns 1 [[0; 0; 0]; [1; 0; 0]] 1).
  simpl; lia.
Defined.

(** ** Reading the kernel back through the masks *)

Section ReadBack.
Import Np Kernel.

Lemma compress_entrywise {A V : Type} (q : A -> bool) (F G : A -> V)
    (a : list (list A)) :
  (forall x, q x = true -> F x = G x) ->
  compress (map (map q) a) (map (map F) a)
  = map G (compress (map (map q) a) a).
Proof.
  intros H. rewrite compress_map.
  pose proof (compress_selected q a) as Hsel.
  rewrite Forall_forall in Hsel.
  apply map_ext_in; intros x Hx. now apply H, Hsel.
Qed.

End ReadBack.

(** X15.  After both assignments, reading W through either mask gives back
    the values of that mask's branch: [W[I1]] is
    [alpha * (2/3 - R[I1]**2 + 1/2 * R[I1]**3)] and [W[I2]] is
    [alpha * (1/6 * (2 - R[I2])**3)]; the second assignment overwrites
    nothing that the first one wrote. *)
Theorem kernel_read_back (h alpha : R) (pos : list (list R)) :
  Np.compress (Kernel.I1 h pos) (Kernel.W h alpha pos)
  = map (Kernel.W_branch1 alpha)
        (Np.compress (Kernel.I1 h pos) (Kernel.Rij h pos))
  /\ Np.compress (Kernel.I2 h pos) (Kernel.W h alpha pos)
     = map (Kernel.W_branch2 alpha)
           (Np.compress (Kernel.I2 h pos) (Kernel.Rij h pos))
  /\ Np.compress (Kernel.I1 h pos) (Kernel.W h alpha pos)
     = Np.compress (Kernel.I1 h pos) (Kernel.W_first h alpha pos).
Proof.
  rewrite W_unfold, W_first_unfold, I1_unfold, I2_unfold, Rij_unfold.
  rewrite (compress_map (Kernel.R_entry h)), !map_map.
  assert (Hone : forall v,
            Kernel.in_I1 (Kernel.R_entry h v) = true ->
            Kernel.W_entry h alpha v
            = Kernel.W_branch1 alpha (Kernel.R_entry h v)).
  { intros v Hv. unfold Kernel.W_entry. rewrite Hv.
    apply in_I1_true in Hv.
    assert (E2 : Kernel.in_I2 (Kernel.R_entry h v) = false)
      by (apply in_I2_false; lra).
    now rewrite E2. }
  split; [|split].
  - now apply compress_entrywise.
  - rewrite (compress_map (Kernel.R_entry h)), map_map.
    apply compress_entrywise.
    intros v Hv. unfold Kernel.W_entry. now rewrite Hv.
  - rewrite (compress_entrywise _ _ _ _ Hone).
    symmetry. apply compress_entrywise.
    intros v Hv. now rewrite Hv.
Qed.

(** ** Looking up one pair *)

Section Lookups.
Import Np Dot.

Lemma get2_in_bounds {A : Type} (a : list (list A)) (i j : nat) (d : A) :
  (i < length a)%nat -> (j < length (nth i a []))%nat ->
  get2 a i j = Some (nth j (nth i a []) d).
Proof.
  intros Hi Hj. unfold get2.
  rewrite (nth_error_nth' a [] Hi).
  apply nth_error_nth'. exact Hj.
Qed.

Lemma nd_get2_of_array2 (a : list (list R)) (i j : nat) :
  (i < length a)%nat -> (j < length (nth i a []))%nat ->
  nd_get2 (of_array2 a) i j = Some (Scalar (nth j (nth i a []) 0)).
Proof.
  intros Hi Hj. unfold nd_get2, nd_get, of_array2.
  rewrite (nth_error_nth' _ (of_array1 []))
    by now rewrite length_map.
  rewrite (nth_map_in of_array1 a i [] (of_array1 [])) by exact Hi.
  unfold of_array1 at 1.
  rewrite (nth_error_nth' _ (Scalar 0)) by now rewrite length_map.
  now rewrite (nth_map_in Scalar _ j 0 (Scalar 0)) by exact Hj.
Qed.

End Lookups.

(** X17.  The lookups of one pair, whatever the arithmetic.  For arrays of
    shape (N, N, 3) and a pair (i, j) within them, the sum over the pair
    and the entries (i, j) of the first two formulations are all defined;
    the entry (i, j) of the third is defined for N other than 1, and for
    N = 1 the lookup with two indices fails, the squeezed result having no
    axis left. *)
Theorem pair_lookups_defined (n : nat) (dx dv : list (list (list R)))
    (i j : nat) :
  Dot.shape3 n n 3 dx -> Dot.shape3 n n 3 dv ->
  (i < n)%nat -> (j < n)%nat ->
  (exists d, Dot.pair_sum dx dv i j = Some d)
  /\ (exists d, Dot.get2 (Dot.dxdvij_A dx dv) i j = Some d)
  /\ (exists d, Dot.get2 (Dot.dxdvij_B dx dv) i j = Some d)
  /\ (n <> 1%nat ->
      exists d, Dot.nd_get2 (Dot.dxdvij_C dx dv) i j = Some (Dot.Scalar d))
  /\ (n = 1%nat -> Dot.nd_get2 (Dot.dxdvij_C dx dv) i j = None).
Proof.
  intros Hdx Hdv Hi Hj.
  assert (HA : Dot.get2 (Dot.dxdvij_A dx dv) i j
               = Some (nth j (nth i (Dot.dxdvij_A dx dv) []) 0)).
  { apply get2_in_bounds.
    - now rewrite (length_A n dx dv).
    - now rewrite (length_A_row n dx dv). }
  split; [|split; [|split; [|split]]].
  - unfold Dot.pair_sum.
    rewrite (get2_in_bounds dx i j [])
      by (try (destruct Hdx as [-> _]; exact Hi);
          now rewrite (shape3_row n n 3 dx)).
    rewrite (get2_in_bounds dv i j [])
      by (try (destruct Hdv as [-> _]; exact Hi);
          now rewrite (shape3_row n n 3 dv)).
    eexists; reflexivity.
  - eexists; exact HA.
  - rewrite <- (A_eq_B n dx dv) by assumption. eexists; exact HA.
  - intros Hn. rewrite (C_many n dx dv) by assumption.
    eexists. apply nd_get2_of_array2.
    + now rewrite (length_A n dx dv).
    + now rewrite (length_A_row n dx dv).
  - intros Hn. now rewrite (C_one n dx dv) by assumption.
Qed.

Lemma pair_lookups_defined_witness :
  Dot.shape3 1 1 3 [[[1; 2; 3]]]
  /\ Dot.shape3 1 1 3 [[[4; 5; 6]]]
  /\ (exists d, Dot.get2 (Dot.dxdvij_A [[[1; 2; 3]]] [[[4; 5; 6]]]) 0 0
                = Some d)
  /\ Dot.nd_get2 (Dot.dxdvij_C [[[1; 2; 3]]] [[[4; 5; 6]]]) 0 0 = None.
Proof.
  assert (Hx : Dot.shape3 1 1 3 [[[1; 2; 3]]])
    by (split; [reflexivity | repeat constructor]).
  assert (Hv : Dot.shape3 1 1 3 [[[4; 5; 6]]])
    by (split; [reflexivity | repeat constructor]).
  destruct (pair_lookups_defined 1 _ _ 0 0 Hx Hv ltac:(lia) ltac:(lia))
    as (_ & HA & _ & _ & HC).
  split; [exact Hx|]. split; [exact Hv|]. split; [exact HA|].
  now apply HC.
Defined.

(** ** Masses *)

Section MassLemmas.
Import Np Float Gravity.

Lemma acc_term_massless (G : R) (p q : list R) :
  acc_term G 0 p q = repeat 0 (length (sub1 p q)).
Proof.
  unfold acc_term. rewrite <- zeros_repeat.
  apply map_ext; intros c.
  destruct (Req_dec_T (norm (sub1 p q)) 0); [reflexivity|].
  unfold Rdiv. ring.
Qed.

Lemma acc_term_self (G m m' : R) (p : list R) :
  acc_term G m p p = acc_term G m' p p.
Proof.
  unfold acc_term. rewrite sub1_self, norm_zeros.
  apply map_ext; intros c.
  destruct (Req_dec_T 0 0) as [_|H]; [reflexivity | contradiction].
Qed.

End MassLemmas.

(** X19.  A body of mass zero, like body 0 of [mass = np.arange(N)], exerts
    nothing: every entry of column j of [acc_matrix] with mass[j] = 0
    counts as zero in the sum. *)
Theorem massless_body_exerts_nothing (G : R) (mass0 : list R)
    (pos0 vel : list (list R)) (i j : nat) :
  length mass0 = length (Gravity.pos pos0 vel) ->
  (i < length (Gravity.pos pos0 vel))%nat ->
  (j < length (Gravity.pos pos0 vel))%nat ->
  nth j mass0 0 = 0 ->
  Forall (fun a => a = Float.Fin 0)
         (map Float.nan_to_zero
              (nth j (nth i (Gravity.acc_matrix G mass0 pos0 vel) []) [])).
Proof.
  intros Hmass Hi Hj Hzero.
  rewrite nth_acc_matrix by assumption.
  rewrite nan_to_zero_entry, Hzero, acc_term_massless, map_repeat.
  apply Forall_forall; intros a Ha. now apply repeat_spec in Ha.
Qed.

Lemma massless_body_exerts_nothing_witness :
  (1 < length (Gravity.pos [[0; 0; 0]; [2; 0; 0]]%R
                           [[0; 0; 0]; [0; 3; 0]]%R))%nat
  /\ Forall (fun a => a = Float.Fin 0)
            (map Float.nan_to_zero
                 (nth 0 (nth 1 (Gravity.acc_matrix 1 [0; 1]
                                  [[0; 0; 0]; [2; 0; 0]]
                                  [[0; 0; 0]; [0; 3; 0]]) []) [])).
Proof.
  split; [simpl; lia|].
  apply (massless_body_exerts_nothing 1 [0; 1] [[0; 0; 0]; [2; 0; 0]]
           [[0; 0; 0]; [0; 3; 0]] 1 0);
    [reflexivity | simpl; lia | simpl; lia | reflexivity].
Defined.

(** X20.  The acceleration of a body does not depend on its own mass: two
    lists of masses that differ at most at index i give the same row i of
    the acceleration block. *)
Theorem acceleration_ignores_own_mass (G : R) (mass0 mass0' : list R)
    (pos0 vel : list (list R)) (i : nat) :
  Forall (fun p => length p = 3%nat) pos0 ->
  Forall (fun v => length v = 3%nat) vel ->
  length pos0 = length vel ->
  length mass0 = length vel -> length mass0' = length vel ->
  (i < length vel)%nat ->
  (forall j, j <> i -> nth j mass0 0 = nth j mass0' 0) ->
  nth i (Gravity.acc G mass0 pos0 vel) []
  = nth i (Gravity.acc G mass0' pos0 vel) [].
Proof.
  intros Hp Hv Hlen Hm Hm' Hi Hsame.
  rewrite !acc_row_velocity by assumption.
  do 3 f_equal.
  apply (nth_ext _ _ [] []).
  - rewrite !length_map2. lia.
  - rewrite length_map2, Hm, Nat.min_id. intros j Hj.
    rewrite !(nth_map2 _ _ _ j 0 [] []) by lia.
    destruct (Nat.eq_dec j i) as [->|Hne].
    + apply acc_term_self.
    + now rewrite (Hsame j Hne).
Qed.

Lemma acceleration_ignores_own_mass_witness :
  (0 < length [[0; 0; 0]; [0; 3; 0]]%R)%nat
  /\ nth 0 (Gravity.acc 1 [1; 2] [[0; 0; 0]; [2; 0; 0]]
                        [[0; 0; 0]; [0; 3; 0]]) []
     = nth 0 (Gravity.acc 1 [7; 2] [[0; 0; 0]; [2; 0; 0]]
                          [[0; 0; 0]; [0; 3; 0]]) [].
Proof.
  split; [simpl; lia|].
  apply (acceleration_ignores_own_mass 1 [1; 2] [7; 2]
           [[0; 0; 0]; [2; 0; 0]] [[0; 0; 0]; [0; 3; 0]] 0);
    try (repeat constructor); try reflexivity; try (simpl; lia).
  intros [|[|j]] Hj; try reflexivity. now elim Hj.
Defined.

(** ** Direction of the gradient *)

Section GradientDirection.
Import Np Kernel.


End GradientDirection.



Section RowSums.
Import Np.

Lemma sum_nonneg (l : list R) : Forall (fun x => 0 <= x) l -> 0 <= sum l.
Proof. induction 1 as [|x l Hx _ IH]; simpl; lra. Qed.

Lemma Forall_firstn_skipn {A : Type} (P : A -> Prop) (l : list A) (i : nat) :
  Forall P l -> Forall P (firstn i l ++ skipn (Datatypes.S i) l).
Proof.
  intros H. rewrite Forall_forall in *. intros x Hx.
  apply in_app_or in Hx. destruct Hx as [Hx|Hx].
  - apply H.
    assert (Hin : In x (firstn i l ++ skipn i l))
      by (apply in_or_app; now left).
    now rewrite firstn_skipn in Hin.
  - apply H.
    assert (Hin : In x (firstn (Datatypes.S i) l ++ skipn (Datatypes.S i) l))
      by (apply in_or_app; now right).
    now rewrite firstn_skipn in Hin.
Qed.

End RowSums.

(** X23.  For h > 0 and alpha >= 0 the sum of row i of W over all j, self
    term included, is at least the self term alpha * 2/3. *)
Theorem kernel_row_sum_bound (h alpha : R) (pos : list (list R)) (i : nat) :
  0 < h -> 0 <= alpha -> (i < length pos)%nat ->
  alpha * 2 / 3 <= Np.sum (nth i (Kernel.W h alpha pos) []).
Proof.
  intros Hh Ha Hi.
  assert (Hrow : nth i (Kernel.W h alpha pos) []
                 = map (fun q => Kernel.W_entry h alpha
                                   (Np.sub1 (nth i pos []) q)) pos).
  { rewrite W_unfold, kernel_dxij_unfold, map_map.
    rewrite (nth_map_in _ pos i [] []) by exact Hi.
    now rewrite map_map. }
  assert (Hnon : Forall (fun x => 0 <= x) (nth i (Kernel.W h alpha pos) [])).
  { rewrite Hrow. apply Forall_map, Forall_forall. intros q _.
    now apply W_entry_range. }
  assert (Hdiag : nth i (nth i (Kernel.W h alpha pos) []) 0 = alpha * 2 / 3).
  { rewrite Hrow, (nth_map_in _ pos i [] 0) by exact Hi.
    rewrite sub1_self. unfold Kernel.W_entry.
    rewrite R_entry_zeros.
    assert (E2 : Kernel.in_I2 0 = false) by (apply in_I2_false; lra).
    assert (E1 : Kernel.in_I1 0 = true) by (apply in_I1_true; lra).
    rewrite E2, E1. unfold Kernel.W_branch1. field. }
  rewrite (sum_split_nth _ i) by (rewrite Hrow, length_map; exact Hi).
  rewrite Hdiag.
  pose proof (sum_nonneg _ (Forall_firstn_skipn _ _ i Hnon)).
  lra.
Qed.

Lemma kernel_row_sum_bound_witness :
  0 < 1 /\ 0 <= 1 /\ (0 < 2)%nat
  /\ 1 * 2 / 3 <= Np.sum (nth 0 (Kernel.W 1 1 [[0; 0; 0]; [1; 0; 0]]) []).
Proof.
  split; [lra|]. split; [lra|]. split; [lia|].
  apply (kernel_row_sum_bound 1 1 [[0; 0; 0]; [1; 0; 0]] 0);
    [lra | lra | simpl; lia].
Defined.

